(** * Time-slot partition and ice-area reduction of the Sentinel Hub notebooks

    The two notebooks of the repository share one cell that splits a date
    range into time slots (ice_monitoring.ipynb, "split the entire time
    period", and the "Multiple timestamps data" example), and
    ice_monitoring.ipynb reduces every downloaded mask raster to an area with
    [count_ice_pixels].  This file embeds those cells: Python's [datetime]
    arithmetic on whole microseconds, list comprehensions over [range], NumPy
    slicing and summation on [uint8] rasters, and the final float division. *)

From Stdlib Require Import ZArith List String Ascii Bool Lia Floats.
Import ListNotations.
Local Open Scope Z_scope.

(** ** Exceptions and the error monad *)

(** The exceptions the embedded cells can raise. *)
Inductive exn : Type :=
| ZeroDivisionError
| OverflowError
| IndexError.

Inductive result (A : Type) : Type :=
| Ok (a : A)
| Raise (e : exn).
Arguments Ok {A} a.
Arguments Raise {A} e.

Definition bind {A B : Type} (m : result A) (k : A -> result B) : result B :=
  match m with
  | Ok a => k a
  | Raise e => Raise e
  end.

Notation "x <- m ;; k" := (bind m (fun x => k))
  (at level 61, m at next level, right associativity).

(** A list comprehension [[f x for x in l]]: elements are evaluated from left
    to right and the first exception aborts the whole comprehension. *)
Fixpoint mapM {A B : Type} (f : A -> result B) (l : list A) : result (list B) :=
  match l with
  | [] => Ok []
  | x :: l' => y <- f x ;; ys <- mapM f l' ;; Ok (y :: ys)
  end.

(** [range(n)]: the integers 0, 1, ..., n-1; empty when [n <= 0]. *)
Definition range (n : Z) : list Z := map Z.of_nat (seq 0 (Z.to_nat n)).

(** [len(l)] as a Python integer. *)
Definition len {A : Type} (l : list A) : Z := Z.of_nat (List.length l).

(** [l[i]] on a Python list: negative indices count from the end, and an index
    outside [-len(l), len(l))] raises IndexError. *)
Definition getitem {A : Type} (l : list A) (i : Z) : result A :=
  let j := if i <? 0 then i + len l else i in
  if (0 <=? j) && (j <? len l) then
    match nth_error l (Z.to_nat j) with
    | Some x => Ok x
    | None => Raise IndexError
    end
  else Raise IndexError.

(** ** Python's datetime module, as far as the partition cell uses it *)

Module Datetime.

(** A [timedelta] is held as its total number of microseconds
    (CPython's [_to_microseconds]); a [datetime] as the number of microseconds
    since midnight of proleptic Gregorian ordinal 0, i.e.
    [toordinal() * US_PER_DAY + microseconds into the day]; a [date] as its
    ordinal. *)
Definition timedelta : Type := Z.
Definition datetime : Type := Z.
Definition date : Type := Z.

Definition US_PER_DAY : Z := 86400000000.
(** [date.max.toordinal()], the ordinal of 9999-12-31. *)
Definition MAXORDINAL : Z := 3652059.
(** [timedelta.max.days]. *)
Definition MAX_DELTA_DAYS : Z := 999999999.

(** The [timedelta] constructor: after normalisation the day count must not
    exceed 999999999 in magnitude. *)
Definition mk_timedelta (us : Z) : result timedelta :=
  if Z.abs (us / US_PER_DAY) >? MAX_DELTA_DAYS then Raise OverflowError
  else Ok us.

(** [_divide_and_round(a, b)]: [a / b] rounded to the nearest integer, ties
    to even.  Python's [divmod] floors, as [Z.div] and [Z.modulo] do. *)
Definition divide_and_round (a b : Z) : Z :=
  let q := a / b in
  let r := 2 * (a mod b) in
  let greater_than_half := if 0 <? b then b <? r else r <? b in
  if greater_than_half || ((r =? b) && (q mod 2 =? 1)) then q + 1 else q.

(** [d1 - d2] on two datetimes. *)
Definition dt_sub (d1 d2 : datetime) : result timedelta := mk_timedelta (d1 - d2).

(** [td / n] for an integer [n]. *)
Definition td_truediv (td : timedelta) (n : Z) : result timedelta :=
  if n =? 0 then Raise ZeroDivisionError
  else mk_timedelta (divide_and_round td n).

(** [i * td] for an integer [i]. *)
Definition td_rmul (i : Z) (td : timedelta) : result timedelta :=
  mk_timedelta (i * td).

(** [d + td]: the resulting day must have an ordinal in [1, MAXORDINAL]. *)
Definition dt_add (d : datetime) (td : timedelta) : result datetime :=
  let r := d + td in
  let days := r / US_PER_DAY in
  if (0 <? days) && (days <=? MAXORDINAL) then Ok r else Raise OverflowError.

(** [d.date()]: the calendar day, the time of day dropped. *)
Definition dt_date (d : datetime) : date := d / US_PER_DAY.

(** The values a [datetime] object can hold. *)
Definition valid_datetime (d : datetime) : Prop :=
  US_PER_DAY <= d < (MAXORDINAL + 1) * US_PER_DAY.

(** *** The calendar *)

Definition is_leap (year : Z) : bool :=
  (year mod 4 =? 0) && (negb (year mod 100 =? 0) || (year mod 400 =? 0)).

Definition DAYS_IN_MONTH : list Z :=
  [-1; 31; 28; 31; 30; 31; 30; 31; 31; 30; 31; 30; 31].

Definition DAYS_BEFORE_MONTH : list Z :=
  [-1; 0; 31; 59; 90; 120; 151; 181; 212; 243; 273; 304; 334].

Definition table (t : list Z) (i : Z) : Z := nth (Z.to_nat i) t 0.

Definition days_before_year (year : Z) : Z :=
  let y := year - 1 in
  y * 365 + y / 4 - y / 100 + y / 400.

Definition days_before_month (year month : Z) : Z :=
  table DAYS_BEFORE_MONTH month
  + (if (2 <? month) && is_leap year then 1 else 0).

Definition ymd2ord (year month day : Z) : Z :=
  days_before_year year + days_before_month year month + day.

Definition DI400Y : Z := 146097.
Definition DI100Y : Z := 36524.
Definition DI4Y : Z := 1461.

(** [_ord2ymd]: ordinal to (year, month, day). *)
Definition ord2ymd (ord : Z) : Z * Z * Z :=
  let n := ord - 1 in
  let n400 := n / DI400Y in
  let n := n mod DI400Y in
  let year := n400 * 400 + 1 in
  let n100 := n / DI100Y in
  let n := n mod DI100Y in
  let n4 := n / DI4Y in
  let n := n mod DI4Y in
  let n1 := n / 365 in
  let n := n mod 365 in
  let year := year + n100 * 100 + n4 * 4 + n1 in
  if (n1 =? 4) || (n100 =? 4) then (year - 1, 12, 31)
  else
    let leapyear := (n1 =? 3) && (negb (n4 =? 24) || (n100 =? 3)) in
    let month := Z.shiftr (n + 50) 5 in
    let preceding :=
      table DAYS_BEFORE_MONTH month
      + (if (2 <? month) && leapyear then 1 else 0) in
    if n <? preceding then
      let month := month - 1 in
      let preceding :=
        preceding
        - (table DAYS_IN_MONTH month
           + (if (month =? 2) && leapyear then 1 else 0)) in
      (year, month, n - preceding + 1)
    else (year, month, n - preceding + 1).

(** [datetime.datetime(year, month, day)]: midnight of that day. *)
Definition mk_datetime (year month day : Z) : datetime :=
  ymd2ord year month day * US_PER_DAY.

(** *** [isoformat] *)

Definition digit (d : Z) : ascii := ascii_of_nat (48 + Z.to_nat d).

(** The [w] low decimal digits of [n], most significant first: ["%0wd" % n]
    for [0 <= n < 10^w]. *)
Fixpoint zfill (w : nat) (n : Z) (acc : string) : string :=
  match w with
  | O => acc
  | S w' => zfill w' (n / 10) (String (digit (n mod 10)) acc)
  end.

(** [d.isoformat()], ["%04d-%02d-%02d" % (year, month, day)]. *)
Definition isoformat (d : date) : string :=
  let '(y, m, dd) := ord2ymd d in
  zfill 4 y (String "-" (zfill 2 m (String "-" (zfill 2 dd EmptyString)))).

End Datetime.

Import Datetime.

(** ** The partition cell

    [[
    tdelta = (end - start) / n_chunks
    edges = [(start + i * tdelta).date().isoformat() for i in range(n_chunks)]
    slots = [(edges[i], edges[i + 1]) for i in range(len(edges) - 1)]
    ]]
    with [start], [end] and [n_chunks] as parameters. *)

Definition TimeWindow : Type := (string * string)%type.

Definition tdelta_of (start end_ : datetime) (n_chunks : Z) : result timedelta :=
  span <- dt_sub end_ start ;; td_truediv span n_chunks.

Definition edge (start : datetime) (tdelta : timedelta) (i : Z) : result string :=
  step <- td_rmul i tdelta ;;
  d <- dt_add start step ;;
  Ok (isoformat (dt_date d)).

Definition edges_of (start : datetime) (tdelta : timedelta) (n_chunks : Z)
  : result (list string) :=
  mapM (edge start tdelta) (range n_chunks).

Definition slots_of (edges : list string) : result (list TimeWindow) :=
  mapM (fun i => a <- getitem edges i ;; b <- getitem edges (i + 1) ;; Ok (a, b))
       (range (len edges - 1)).

Definition partition (start end_ : datetime) (n_chunks : Z)
  : result (list TimeWindow) :=
  tdelta <- tdelta_of start end_ n_chunks ;;
  edges <- edges_of start tdelta n_chunks ;;
  slots_of edges.

(** ** NumPy rasters

    A downloaded mask is a [uint8] array of shape (height, width, bands); the
    evalscript of the mask request declares 5 bands, the last one [iceMask]. *)

Module Numpy.

Record ndarray : Type := {
  height : nat;
  width : nat;
  bands : nat;
  (** rows, each a list of pixels, each a list of band values *)
  data : list (list (list Z))
}.

Definition uint8 (v : Z) : bool := (0 <=? v) && (v <=? 255).

(** The data agrees with the declared shape and sample type. *)
Definition wf (a : ndarray) : bool :=
  (List.length (data a) =? height a)%nat
  && forallb (fun row =>
       (List.length row =? width a)%nat
       && forallb (fun px =>
            (List.length px =? bands a)%nat && forallb uint8 px) row)
     (data a).

(** [a[:, :, k]]: the index is checked against the size of the last axis. *)
Definition slice_band (a : ndarray) (k : Z) : result (list (list Z)) :=
  let nb := Z.of_nat (bands a) in
  let j := if k <? 0 then k + nb else k in
  if (0 <=? j) && (j <? nb) then
    Ok (map (map (fun px => nth (Z.to_nat j) px 0)) (data a))
  else Raise IndexError.

Definition zsum (l : list Z) : Z := fold_right Z.add 0 l.

(** [np.sum] of a two-dimensional [uint8] array: the accumulator and the
    result are [uint64]. *)
Definition np_sum (m : list (list Z)) : Z := zsum (map zsum m) mod 2 ^ 64.

(** How NumPy combines a [uint64] scalar with a Python integer.  NumPy 1
    takes the Python integer as [int64] and promotes the pair to [float64];
    NumPy 2 (NEP 50) keeps [uint64].  The notebook pins no version, so both
    are modelled. *)
Inductive promotion : Type :=
| Legacy
| Nep50.

(** The scalars the loop body holds. *)
Inductive scalar : Type :=
| Uint64 (v : Z)
| Float64 (f : float).

(** Conversion of an integer to [float64], to nearest, ties to even. *)
Definition to_float64 (z : Z) : float := SF2Prim (binary_normalize 53 1024 z 0 false).

(** [c * k] for a [uint64] scalar [c] and a Python integer [k]. *)
Definition scalar_mul (p : promotion) (c k : Z) : scalar :=
  match p with
  | Legacy => Float64 (PrimFloat.mul (to_float64 c) (to_float64 k))
  | Nep50 => Uint64 ((c * k) mod 2 ^ 64)
  end.

(** [s / k] for a scalar [s] and a Python integer [k]: true division, in
    [float64] for both scalar types. *)
Definition true_divide (s : scalar) (k : Z) : float :=
  match s with
  | Uint64 v => PrimFloat.div (to_float64 v) (to_float64 k)
  | Float64 f => PrimFloat.div f (to_float64 k)
  end.

End Numpy.

Import Numpy.

(** ** The reduction cells of ice_monitoring.ipynb *)

Definition count_ice_pixels (image : ndarray) : result Z :=
  ice_mask <- slice_band image 4 ;;
  let ice_pixel_count := np_sum ice_mask in
  Ok ice_pixel_count.

Definition resolution_s1 : Z := 20 * 20.

(** One turn of the loop over [mask_data]. *)
Definition ice_area (p : promotion) (image : ndarray) : result float :=
  ice_pixels_count <- count_ice_pixels image ;;
  Ok (true_divide (scalar_mul p ice_pixels_count resolution_s1) 1000000).

(** The list [area_covered_ice] once the loop has run over [mask_data]. *)
Definition area_covered_ice (p : promotion) (mask_data : list ndarray)
  : result (list float) :=
  mapM (ice_area p) mask_data.

(** ** Vocabulary of the specification *)

(** The windows of a list of edges: every edge paired with its successor. *)
Definition adjacent {A : Type} (l : list A) : list (A * A) := combine l (tl l).

(** Every window ends where the next one starts. *)
Definition contiguous (slots : list TimeWindow) : Prop :=
  forall i w w',
    nth_error slots i = Some w -> nth_error slots (S i) = Some w' ->
    snd w = fst w'.

(** The start dates, as ISO strings, never decrease along the sequence. *)
Definition ascending_starts (slots : list TimeWindow) : Prop :=
  forall i j w w',
    (i <= j)%nat ->
    nth_error slots i = Some w -> nth_error slots j = Some w' ->
    (fst w <=? fst w')%string = true.

(** The calendar day of edge [i]. *)
Definition edge_day (start : datetime) (tdelta : timedelta) (i : Z) : date :=
  dt_date (start + i * tdelta).

(** The last edge the first comprehension computes. *)
Definition last_edge (start end_ : datetime) (n_chunks : Z) : datetime :=
  start + (n_chunks - 1) * divide_and_round (end_ - start) n_chunks.

(** [_days_in_month(year, month)]. *)
Definition days_in_month (year month : Z) : Z :=
  if (month =? 2) && is_leap year then 29 else table DAYS_IN_MONTH month.

(** A month and a day that exist in year [y]. *)
Definition valid_ymd (y m d : Z) : Prop :=
  1 <= m <= 12 /\ 1 <= d <= days_in_month y m.

(** The tail of [ord2ymd]: month and day of the [n]-th day (from 0) of a
    year that is a leap year or not. *)
Definition month_day (n : Z) (leapyear : bool) : Z * Z :=
  let month := Z.shiftr (n + 50) 5 in
  let preceding :=
    table DAYS_BEFORE_MONTH month
    + (if (2 <? month) && leapyear then 1 else 0) in
  if n <? preceding then
    let month := month - 1 in
    let preceding :=
      preceding
      - (table DAYS_IN_MONTH month
         + (if (month =? 2) && leapyear then 1 else 0)) in
    (month, n - preceding + 1)
  else (month, n - preceding + 1).

(** What [month_day] must satisfy, as a test that can be run on every day
    of a year. *)
Definition month_day_ok (leapyear : bool) (n : Z) : bool :=
  let '(m, d) := month_day n leapyear in
  (1 <=? m) && (m <=? 12) && (1 <=? d)
  && (d <=? (if (m =? 2) && leapyear then 29 else table DAYS_IN_MONTH m))
  && (table DAYS_BEFORE_MONTH m + (if (2 <? m) && leapyear then 1 else 0) + d
      =? n + 1).

(** ["%04d-%02d-%02d" % (y, m, d)]. *)
Definition iso_ymd (y m d : Z) : string :=
  zfill 4 y (String "-" (zfill 2 m (String "-" (zfill 2 d EmptyString)))).

(** The values of band [k], pixel by pixel. *)
Definition band_values (image : ndarray) (k : nat) : list Z :=
  List.concat (map (map (fun px => nth k px 0)) (data image)).

(** The number of pixels of band 4 that hold the value [v]. *)
Definition count_value (v : Z) (image : ndarray) : Z :=
  Z.of_nat (List.length (filter (Z.eqb v) (band_values image 4))).

(** Band 4 holds a mask: every value is 0 or 1. *)
Definition is_mask (image : ndarray) : bool :=
  forallb (fun v => (v =? 0) || (v =? 1)) (band_values image 4).

(** The area, in square kilometres, of [c] pixels of 20 m by 20 m: the
    Python expression [c * 400 / 1_000_000] on integers, whose product is
    exact and whose quotient is rounded once (for [c * 400 < 2^53]). *)
Definition km2_of_pixels (c : Z) : float :=
  PrimFloat.div (to_float64 (c * 400)) (to_float64 1000000).

(** The same area computed on a [uint64] count in NumPy's scalar
    arithmetic. *)
Definition area_of_count (p : promotion) (c : Z) : float :=
  true_divide (scalar_mul p c (20 * 20)) 1000000.

(** A synthetic mask of 40 by 40 pixels and 5 bands whose first [k] pixels,
    in row-major order, are marked 1 in band 4; every other value is 0. *)
Definition synthetic (k : Z) : ndarray :=
  {| height := 40; width := 40; bands := 5;
     data := map (fun r => map (fun c =>
               [0; 0; 0; 0; if Z.of_nat (r * 40 + c) <? k then 1 else 0])
               (seq 0 40)) (seq 0 40) |}.

(** A raster whose band 4 holds a value other than 0 and 1. *)
Definition two_in_band_4 : ndarray :=
  {| height := 1; width := 1; bands := 5; data := [[[0; 0; 255; 1; 2]]] |}.

(** Two rasters that differ in every band but band 4. *)
Definition dark_pixel : ndarray :=
  {| height := 1; width := 1; bands := 5; data := [[[9; 0; 0; 1; 1]]] |}.
Definition ice_pixel : ndarray :=
  {| height := 1; width := 1; bands := 5; data := [[[0; 255; 255; 0; 1]]] |}.

(** A raster of 4 bands: it has no band of index 4. *)
Definition four_band_pixel : ndarray :=
  {| height := 1; width := 1; bands := 4; data := [[[0; 255; 255; 1]]] |}.

(** ** The mask evalscript

    The JavaScript of [evalscript_mask], run by the service once per pixel.
    Numbers are binary64; [Math.log] is taken as a parameter. *)

#[local] Set Warnings "-inexact-float".

Module Evalscript.

(** [Math.LN10]. *)
Definition LN10 : float := 2.302585092994046%float.

(** [Math.max(a, b)]: NaN if either is NaN, and [+0] counts as larger than
    [-0]. *)
Definition math_max (a b : float) : float :=
  if is_nan a || is_nan b then nan
  else if (a <? b)%float then b
  else if (b <? a)%float then a
  else if get_sign a then b else a.

Section WithLog.

Variable Math_log : float -> float.

(** [toDb]: decibels from -20 to +10 mapped to 0 .. 1. *)
Definition toDb (linear : float) : float :=
  let log := (10 * Math_log linear / LN10)%float in
  math_max 0 ((log + 20) / 30)%float.

(** [evaluatePixel] of [evalscript_mask]: the sample is its [VV] and its
    [dataMask]; the result is the list of the 5 output bands. *)
Definition evaluatePixel (VV : float) (dataMask : Z) : list Z :=
  let VVdB := toDb VV in
  if ((-0.001 <? VVdB) && (VVdB <? 0.2))%float then
    [0; 0; 255; dataMask; 0]
  else if ((0.2 <? VVdB) && (VVdB <? 1))%float then
    [0; 255; 255; dataMask; 1]
  else [0; 0; 0; dataMask; 0].

End WithLog.

End Evalscript.

Import Evalscript.

(** ** The plotting loops

    [ax = axs[idx // ncols][idx % ncols]] for [idx] from [enumerate]. *)

(** [a // b] and [a % b] on Python integers. *)
Definition floordiv (a b : Z) : result Z :=
  if b =? 0 then Raise ZeroDivisionError else Ok (a / b).

Definition pymod (a b : Z) : result Z :=
  if b =? 0 then Raise ZeroDivisionError else Ok (a mod b).

(** The array of axes of [plt.subplots(ncols=ncols, nrows=nrows)], each axes
    named by its position.  The array has two dimensions when both counts
    are at least 2, as in the three loops of the notebooks. *)
Definition subplots (nrows ncols : Z) : list (list (Z * Z)) :=
  map (fun r => map (fun c => (r, c)) (range ncols)) (range nrows).

(** [axs[idx // ncols][idx % ncols]]. *)
Definition axes_at {A : Type} (axs : list (list A)) (ncols idx : Z) : result A :=
  q <- floordiv idx ncols ;;
  row <- getitem axs q ;;
  r <- pymod idx ncols ;;
  getitem row r.

(** [np.clip(image[:, :, :3], 0, 255)], the array shown for a mask. *)

(** [a[:, :, :k]]: a slice never raises, it stops at the last band. *)
Definition slice_upto (a : ndarray) (k : nat) : ndarray :=
  {| height := height a; width := width a; bands := Nat.min k (bands a);
     data := map (map (firstn k)) (data a) |}.

(** [np.clip(a, lo, hi)], element by element [minimum(hi, maximum(a, lo))]. *)
Definition np_clip (a : ndarray) (lo hi : Z) : ndarray :=
  {| height := height a; width := width a; bands := bands a;
     data := map (map (map (fun v => Z.min hi (Z.max v lo)))) (data a) |}.

Definition mask_shown (image : ndarray) : ndarray :=
  np_clip (slice_upto image 3) 0 255.

(** ** More vocabulary *)

(** The three colours of the mask. *)
Definition blue : list Z := [0; 0; 255].
Definition cyan : list Z := [0; 255; 255].
Definition black : list Z := [0; 0; 0].

Definition list_eqb (l l' : list Z) : bool :=
  (List.length l =? List.length l')%nat && forallb (fun p => fst p =? snd p) (combine l l').

(** The number of pixels whose first three bands are cyan. *)
Definition cyan_pixels (image : ndarray) : Z :=
  Z.of_nat (List.length (filter (fun px => list_eqb (firstn 3 px) cyan)
                                (List.concat (data image)))).

(** The rounded chunk length of a partition. *)
Definition chunk (start end_ : datetime) (n_chunks : Z) : timedelta :=
  divide_and_round (end_ - start) n_chunks.

(** The windows as pairs of days, before [isoformat]. *)
Definition day_windows (start end_ : datetime) (n_chunks : Z) : list (date * date) :=
  adjacent (map (edge_day start (chunk start end_ n_chunks)) (range n_chunks)).

Definition iso_window (w : date * date) : TimeWindow :=
  (isoformat (fst w), isoformat (snd w)).

(** The band sums NumPy would compute without a bound on the accumulator. *)
Definition band_sum (image : ndarray) : Z := zsum (band_values image 4).

(** A stand-in for [Math.log] in examples: the identity. *)
Definition log_stub (x : float) : float := x.

(** A mask of one row with an ice pixel, a water pixel and a pixel that is
    neither. *)
Definition evalscript_row : ndarray :=
  {| height := 1; width := 3; bands := 5;
     data := [[evaluatePixel log_stub 0 1;
               evaluatePixel log_stub (-4) 1;
               evaluatePixel log_stub 5 1]] |}.

(** A raster of the SAR request: 2 bands. *)
Definition sar_pixel : ndarray :=
  {| height := 1; width := 1; bands := 2; data := [[[0; 1]]] |}.

(** ** The parallel download executor

    [SentinelHubDownloadClient(config=config).download(list_of_requests,
    max_threads=5)] runs in the sentinelhub library; the notebooks only call
    it.  The pool below follows section 4.3 of the specification. *)

Module Executor.

Local Open Scope nat_scope.

(** Modelled from the spec: the state of the Parallel Download Executor of
    section 4.3 ([SentinelHubDownloadClient.download], code of the sentinelhub
    library that is not in the repository).  [results] is the pre-sized
    container with one slot per request, [next] the first request no worker
    has pulled yet, [in_flight] the positions of the requests the workers are
    downloading. *)
Record pool (Res : Type) : Type := {
  results : list (option Res);
  next : nat;
  in_flight : list nat
}.
Arguments results {Res} p.
Arguments next {Res} p.
Arguments in_flight {Res} p.

(** Modelled from the spec: the pool before any worker has started, every
    slot of the pre-sized container empty. *)
Definition init {Req Res : Type} (requests : list Req) : pool Res :=
  {| results := repeat None (List.length requests); next := 0; in_flight := [] |}.

(** Modelled from the spec: the write of one worker to its own slot of the
    container; no other slot changes. *)
Fixpoint store {A : Type} (i : nat) (v : A) (l : list A) : list A :=
  match l, i with
  | [], _ => []
  | _ :: l', O => v :: l'
  | x :: l', S i' => x :: store i' v l'
  end.

(** Modelled from the spec: one step of the pool.  A free worker (fewer than
    [max_workers] are busy) pulls the next unassigned request; or any busy
    worker, whichever finishes first, completes its blocking call [fetch]
    and writes the result to the slot of its request. *)
Inductive step {Req Res : Type} (fetch : Req -> Res) (max_workers : nat)
  (requests : list Req) : pool Res -> pool Res -> Prop :=
| step_pull (p : pool Res) :
    List.length (in_flight p) < max_workers ->
    next p < List.length requests ->
    step fetch max_workers requests p
         {| results := results p; next := S (next p);
            in_flight := next p :: in_flight p |}
| step_finish (p : pool Res) (i : nat) (req : Req) :
    In i (in_flight p) ->
    nth_error requests i = Some req ->
    step fetch max_workers requests p
         {| results := store i (Some (fetch req)) (results p); next := next p;
            in_flight := List.remove Nat.eq_dec i (in_flight p) |}.

(** Modelled from the spec: the executions of the pool, any interleaving of
    its steps. *)
Inductive runs {Req Res : Type} (fetch : Req -> Res) (max_workers : nat)
  (requests : list Req) : pool Res -> pool Res -> Prop :=
| runs_refl (p : pool Res) : runs fetch max_workers requests p p
| runs_step (p q r : pool Res) :
    runs fetch max_workers requests p q ->
    step fetch max_workers requests q r ->
    runs fetch max_workers requests p r.

(** Modelled from the spec: the batch is over when every request has been
    pulled and no worker is busy. *)
Definition finished {Req Res : Type} (requests : list Req) (p : pool Res) : Prop :=
  next p = List.length requests /\ in_flight p = [].

(** Modelled from the spec: the sequence [download_all] returns, the
    contents of the container once every slot is filled. *)
Fixpoint collect {A : Type} (l : list (option A)) : option (list A) :=
  match l with
  | [] => Some []
  | Some x :: l' => option_map (cons x) (collect l')
  | None :: _ => None
  end.

Definition output {Res : Type} (p : pool Res) : option (list Res) :=
  collect (results p).

(** Three requests on two workers; the second download finishes first and
    the first one last. *)
Definition out_of_order : pool nat :=
  {| results := [Some 11; Some 21; Some 31]; next := 3;
     in_flight := [] |}.

End Executor.

(** A synthetic raster of one row and 5 bands: [k] pixels marked 1 in
    band 4, followed by one pixel that holds 2 in band 4. *)
Definition marked_then_two (k : nat) : ndarray :=
  {| height := 1; width := k + 1; bands := 5;
     data := [repeat [0; 0; 0; 0; 1] k ++ [[0; 0; 0; 0; 2]]] |}.

(** Sixteen such rasters, raster [i] with [i * 100] pixels marked. *)
Definition marked_then_two_series : list ndarray :=
  map (fun i => marked_then_two (i * 100)) (seq 0 16).

(** * Properties *)

(** ** Comprehensions *)

Section Comprehension.

Context {A B : Type}.

Lemma mapM_ok (f : A -> result B) (g : A -> B) (l : list A) :
  (forall x, In x l -> f x = Ok (g x)) -> mapM f l = Ok (map g l).
Proof.
  induction l as [|x l IH]; intros H; simpl.
  - reflexivity.
  - rewrite (H x (or_introl eq_refl)); simpl.
    rewrite IH by (intros y Hy; apply H; right; exact Hy).
    reflexivity.
Qed.

Lemma mapM_raise (f : A -> result B) (l : list A) (e : exn) :
  mapM f l = Raise e -> exists x, In x l /\ f x = Raise e.
Proof.
  induction l as [|x l IH]; simpl; intros H.
  - discriminate.
  - destruct (f x) as [y|e'] eqn:Hx; simpl in H.
    + destruct (mapM f l) as [ys|e'']; simpl in H; [discriminate|].
      destruct (IH H) as [z [Hz Hfz]]. exists z. auto.
    + exists x. split; [now left|]. congruence.
Qed.

Lemma mapM_raise_at (f : A -> result B) (l : list A) (x : A) (e : exn) :
  In x l -> f x = Raise e -> exists e', mapM f l = Raise e'.
Proof.
  induction l as [|y l IH]; simpl; intros Hin Hx; [contradiction|].
  destruct (f y) as [b|e1] eqn:Hy; simpl; [|eauto].
  destruct Hin as [->|Hin]; [congruence|].
  destruct (IH Hin Hx) as [e' ->]. simpl. eauto.
Qed.

End Comprehension.

Lemma range_length (n : Z) : len (range n) = Z.max 0 n.
Proof. unfold len, range. rewrite length_map, length_seq. lia. Qed.

Lemma in_range (i n : Z) : In i (range n) <-> 0 <= i < n.
Proof.
  unfold range. rewrite in_map_iff. split.
  - intros [k [<- Hk]]. apply in_seq in Hk. lia.
  - intros H. exists (Z.to_nat i). split; [lia|]. apply in_seq. lia.
Qed.

Lemma range_succ (n : Z) : 0 <= n -> range (n + 1) = range n ++ [n].
Proof.
  intros H. unfold range.
  replace (Z.to_nat (n + 1)) with (Z.to_nat n + 1)%nat by lia.
  rewrite seq_app, map_app. simpl. f_equal. f_equal. lia.
Qed.

Lemma range_nonpos (n : Z) : n <= 0 -> range n = [].
Proof. intros H. unfold range. replace (Z.to_nat n) with O by lia. reflexivity. Qed.

Lemma getitem_nth {A : Type} (l : list A) (d : A) (i : Z) :
  0 <= i < len l -> getitem l i = Ok (nth (Z.to_nat i) l d).
Proof.
  intros H. unfold getitem.
  destruct (Z.ltb_spec i 0); [lia|].
  destruct (Z.leb_spec 0 i); [|lia].
  destruct (Z.ltb_spec i (len l)); [|lia]. simpl.
  unfold len in H.
  destruct (nth_error l (Z.to_nat i)) as [x|] eqn:E.
  - now rewrite (nth_error_nth _ _ d E).
  - apply nth_error_None in E. lia.
Qed.

Lemma adjacent_nth {A : Type} (d : A) (l : list A) :
  map (fun i => (nth i l d, nth (S i) l d)) (seq 0 (List.length l - 1))
  = adjacent l.
Proof.
  unfold adjacent. induction l as [|x [|y l] IH]; try reflexivity.
  replace (List.length (x :: y :: l) - 1)%nat with (S (List.length (y :: l) - 1))
    by (simpl; lia).
  rewrite <- cons_seq, <- seq_shift. rewrite map_cons, map_map.
  simpl tl. simpl combine. f_equal. exact IH.
Qed.

(** The second comprehension never fails: its indices stay inside [edges]. *)
Lemma slots_of_adjacent (edges : list string) : slots_of edges = Ok (adjacent edges).
Proof.
  unfold slots_of.
  rewrite (mapM_ok _ (fun i => (nth (Z.to_nat i) edges EmptyString,
                                nth (Z.to_nat (i + 1)) edges EmptyString))).
  - f_equal. rewrite <- (adjacent_nth EmptyString). unfold range, len.
    rewrite map_map.
    replace (Z.to_nat (Z.of_nat (List.length edges) - 1))
      with (List.length edges - 1)%nat by lia.
    apply map_ext. intros i. rewrite Nat2Z.id. do 2 f_equal. lia.
  - intros i Hi. apply in_range in Hi.
    rewrite (getitem_nth _ EmptyString) by lia. simpl.
    rewrite (getitem_nth _ EmptyString) by lia. reflexivity.
Qed.

Lemma adjacent_length {A : Type} (l : list A) :
  len (adjacent l) = Z.max 0 (len l - 1).
Proof.
  unfold adjacent, len. rewrite length_combine.
  destruct l; cbn [tl List.length]; lia.
Qed.

Lemma windows_length {A : Type} (f : Z -> A) (n : Z) :
  1 <= n -> len (adjacent (map f (range n))) = n - 1.
Proof.
  intros Hn. rewrite adjacent_length. unfold len at 1. rewrite length_map.
  fold (len (range n)). rewrite range_length. lia.
Qed.

Lemma adjacent_nth_error {A : Type} (l : list A) (i : nat) (a b : A) :
  nth_error (adjacent l) i = Some (a, b)
  <-> nth_error l i = Some a /\ nth_error l (S i) = Some b.
Proof.
  unfold adjacent. replace (nth_error l (S i)) with (nth_error (tl l) i)
    by (destruct l; [destruct i|]; reflexivity).
  generalize (tl l). revert i.
  induction l as [|x l IH]; intros i t.
  - simpl. destruct i; simpl; split; [discriminate|intros [H _]; discriminate
                                     |discriminate|intros [H _]; discriminate].
  - destruct t as [|y t].
    + simpl. destruct i; simpl; split; try discriminate;
        intros [_ H]; discriminate.
    + destruct i; simpl.
      * split; [intros [= -> ->]; auto|intros [[= ->] [= ->]]; reflexivity].
      * apply IH.
Qed.

Lemma adjacent_map {A B : Type} (f : A -> B) (l : list A) :
  adjacent (map f l) = map (fun w => (f (fst w), f (snd w))) (adjacent l).
Proof.
  unfold adjacent.
  replace (tl (map f l)) with (map f (tl l)) by (destruct l; reflexivity).
  generalize (tl l).
  induction l as [|x l IH]; intros [|y t]; simpl; try reflexivity.
  now rewrite IH.
Qed.

(** ** Datetime arithmetic *)

Section DatetimeFacts.

Lemma US_PER_DAY_pos : 0 < US_PER_DAY.
Proof. reflexivity. Qed.

(** Rounding to nearest: twice the error is at most the divisor. *)
Lemma divide_and_round_near (a b : Z) :
  b <> 0 -> Z.abs (2 * (b * divide_and_round a b) - 2 * a) <= Z.abs b.
Proof.
  intros Hb. unfold divide_and_round.
  pose proof (Z.div_mod a b Hb) as E.
  destruct (Z.ltb_spec 0 b) as [Hpos|Hneg].
  - pose proof (Z.mod_pos_bound a b Hpos) as Hr.
    destruct (Z.ltb_spec b (2 * (a mod b))); cbn [orb andb].
    + lia.
    + destruct (Z.eqb_spec (2 * (a mod b)) b); cbn [orb andb];
        [destruct (Z.eqb_spec ((a / b) mod 2) 1)|]; lia.
  - assert (Hlt : b < 0) by lia.
    pose proof (Z.mod_neg_bound a b Hlt) as Hr.
    destruct (Z.ltb_spec (2 * (a mod b)) b); cbn [orb andb].
    + lia.
    + destruct (Z.eqb_spec (2 * (a mod b)) b); cbn [orb andb];
        [destruct (Z.eqb_spec ((a / b) mod 2) 1)|]; lia.
Qed.

Lemma divide_and_round_nonneg (a b : Z) :
  0 <= a -> 0 < b -> 0 <= divide_and_round a b.
Proof.
  intros Ha Hb. pose proof (divide_and_round_near a b ltac:(lia)). nia.
Qed.

Lemma divide_and_round_nonpos (a b : Z) :
  a <= 0 -> 0 < b -> divide_and_round a b <= 0.
Proof.
  intros Ha Hb. pose proof (divide_and_round_near a b ltac:(lia)). nia.
Qed.

Lemma divide_and_round_abs (a b : Z) :
  b <> 0 -> Z.abs (divide_and_round a b) <= Z.abs a + 1.
Proof.
  intros Hb. pose proof (divide_and_round_near a b Hb). nia.
Qed.

Lemma mk_timedelta_ok (us : Z) :
  Z.abs us <= MAX_DELTA_DAYS * US_PER_DAY -> mk_timedelta us = Ok us.
Proof.
  intros H. unfold mk_timedelta.
  destruct (Z.gtb_spec (Z.abs (us / US_PER_DAY)) MAX_DELTA_DAYS) as [Hgt|]; [|reflexivity].
  exfalso. unfold US_PER_DAY, MAX_DELTA_DAYS in *.
  pose proof (Z.div_mod us 86400000000 ltac:(lia)).
  pose proof (Z.mod_pos_bound us 86400000000 ltac:(lia)). lia.
Qed.

Lemma dt_add_valid (d : datetime) (td : timedelta) :
  valid_datetime (d + td) -> dt_add d td = Ok (d + td).
Proof.
  unfold valid_datetime, dt_add, US_PER_DAY, MAXORDINAL. intros H.
  pose proof (Z.div_mod (d + td) 86400000000 ltac:(lia)).
  pose proof (Z.mod_pos_bound (d + td) 86400000000 ltac:(lia)).
  destruct (Z.ltb_spec 0 ((d + td) / 86400000000)); [|lia].
  destruct (Z.leb_spec ((d + td) / 86400000000) 3652059); [|lia].
  reflexivity.
Qed.

Lemma dt_add_invalid (d : datetime) (td : timedelta) :
  ~ valid_datetime (d + td) -> dt_add d td = Raise OverflowError.
Proof.
  unfold valid_datetime, dt_add, US_PER_DAY, MAXORDINAL. intros H.
  pose proof (Z.div_mod (d + td) 86400000000 ltac:(lia)).
  pose proof (Z.mod_pos_bound (d + td) 86400000000 ltac:(lia)).
  destruct (Z.ltb_spec 0 ((d + td) / 86400000000)); [|reflexivity].
  destruct (Z.leb_spec ((d + td) / 86400000000) 3652059); [|reflexivity].
  lia.
Qed.

Lemma valid_datetime_dec (d : datetime) : {valid_datetime d} + {~ valid_datetime d}.
Proof.
  unfold valid_datetime.
  destruct (Z_le_dec US_PER_DAY d); destruct (Z_lt_dec d ((MAXORDINAL + 1) * US_PER_DAY));
    (left; lia) || (right; lia).
Qed.

(** The day of a valid datetime is a valid ordinal. *)
Lemma dt_date_valid (d : datetime) :
  valid_datetime d -> 1 <= dt_date d <= MAXORDINAL.
Proof.
  unfold valid_datetime, dt_date, US_PER_DAY, MAXORDINAL. intros H.
  pose proof (Z.div_mod d 86400000000 ltac:(lia)).
  pose proof (Z.mod_pos_bound d 86400000000 ltac:(lia)). lia.
Qed.

Lemma tdelta_of_ok (start end_ : datetime) (n_chunks : Z) :
  valid_datetime start -> valid_datetime end_ -> n_chunks <> 0 ->
  tdelta_of start end_ n_chunks = Ok (divide_and_round (end_ - start) n_chunks).
Proof.
  unfold valid_datetime, tdelta_of, dt_sub, td_truediv. intros Hs He Hn.
  pose proof (divide_and_round_abs (end_ - start) n_chunks Hn) as Hb.
  unfold US_PER_DAY, MAXORDINAL in *.
  rewrite mk_timedelta_ok by (unfold US_PER_DAY, MAX_DELTA_DAYS; lia). simpl.
  destruct (Z.eqb_spec n_chunks 0); [contradiction|].
  apply mk_timedelta_ok. unfold US_PER_DAY, MAX_DELTA_DAYS. lia.
Qed.

Lemma tdelta_of_zero (start end_ : datetime) :
  valid_datetime start -> valid_datetime end_ ->
  tdelta_of start end_ 0 = Raise ZeroDivisionError.
Proof.
  unfold valid_datetime, tdelta_of, dt_sub, td_truediv. intros Hs He.
  unfold US_PER_DAY, MAXORDINAL in *.
  rewrite mk_timedelta_ok by (unfold US_PER_DAY, MAX_DELTA_DAYS; lia).
  reflexivity.
Qed.

Lemma edge_ok (start : datetime) (tdelta : timedelta) (i : Z) :
  valid_datetime start -> valid_datetime (start + i * tdelta) ->
  edge start tdelta i = Ok (isoformat (edge_day start tdelta i)).
Proof.
  intros Hs Hv. unfold edge, td_rmul.
  rewrite mk_timedelta_ok; simpl.
  - rewrite dt_add_valid by exact Hv. reflexivity.
  - unfold valid_datetime, US_PER_DAY, MAXORDINAL, MAX_DELTA_DAYS in *. lia.
Qed.

Lemma edge_overflow (start : datetime) (tdelta : timedelta) (i : Z) :
  ~ valid_datetime (start + i * tdelta) ->
  edge start tdelta i = Raise OverflowError.
Proof.
  intros Hv. unfold edge, td_rmul, mk_timedelta.
  destruct (_ >? _); simpl; [reflexivity|].
  now rewrite dt_add_invalid.
Qed.

Lemma edge_day_mono (start : datetime) (tdelta : timedelta) (i j : Z) :
  0 <= tdelta -> i <= j -> edge_day start tdelta i <= edge_day start tdelta j.
Proof.
  intros Ht Hij. unfold edge_day, dt_date.
  apply Z.div_le_mono; [reflexivity|]. nia.
Qed.

End DatetimeFacts.

(** ** The calendar: [isoformat] preserves the order of days *)

Lemma month_day_checked (leapyear : bool) (n : Z) :
  0 <= n < 365 + (if leapyear then 1 else 0) -> month_day_ok leapyear n = true.
Proof.
  intros Hn.
  assert (H : forallb (month_day_ok leapyear)
                      (range (365 + (if leapyear then 1 else 0))) = true)
    by (destruct leapyear; vm_compute; reflexivity).
  rewrite forallb_forall in H. apply H. now apply in_range.
Qed.

Lemma days_before_year_succ (y : Z) :
  days_before_year (y + 1) = days_before_year y + 365 + (if is_leap y then 1 else 0).
Proof.
  unfold days_before_year, is_leap.
  replace (y + 1 - 1) with y by lia.
  destruct (Z.eqb_spec (y mod 4) 0); destruct (Z.eqb_spec (y mod 100) 0);
    destruct (Z.eqb_spec (y mod 400) 0); cbn [negb orb andb];
    Z.div_mod_to_equations; lia.
Qed.

Lemma days_before_year_mono (y y' : Z) :
  y <= y' -> days_before_year y <= days_before_year y'.
Proof.
  unfold days_before_year. intros H. Z.div_mod_to_equations. lia.
Qed.

Lemma month_cases (m : Z) :
  1 <= m <= 12 ->
  m = 1 \/ m = 2 \/ m = 3 \/ m = 4 \/ m = 5 \/ m = 6 \/ m = 7 \/ m = 8 \/ m = 9
  \/ m = 10 \/ m = 11 \/ m = 12.
Proof. lia. Qed.

Ltac split_month H :=
  apply month_cases in H;
  repeat (destruct H as [H|H]); subst.

Ltac is_bool_value v := match v with true => idtac | false => idtac end.

(* Evaluates table look-ups and comparisons once the month is a literal. *)
Ltac eval_tables :=
  repeat match goal with
         | |- context [table ?t ?k] =>
             let v := eval vm_compute in (table t k) in change (table t k) with v
         | H : context [table ?t ?k] |- _ =>
             let v := eval vm_compute in (table t k) in change (table t k) with v in H
         | |- context [Z.ltb ?a ?b] =>
             let v := eval vm_compute in (Z.ltb a b) in
             is_bool_value v; change (Z.ltb a b) with v
         | H : context [Z.ltb ?a ?b] |- _ =>
             let v := eval vm_compute in (Z.ltb a b) in
             is_bool_value v; change (Z.ltb a b) with v in H
         | |- context [Z.eqb ?a ?b] =>
             let v := eval vm_compute in (Z.eqb a b) in
             is_bool_value v; change (Z.eqb a b) with v
         | H : context [Z.eqb ?a ?b] |- _ =>
             let v := eval vm_compute in (Z.eqb a b) in
             is_bool_value v; change (Z.eqb a b) with v in H
         end.

Lemma day_of_year_bounds (y m d : Z) :
  valid_ymd y m d ->
  1 <= days_before_month y m + d <= 365 + (if is_leap y then 1 else 0).
Proof.
  intros [Hm Hd]. unfold days_before_month, days_in_month in *.
  split_month Hm; eval_tables; destruct (is_leap y); cbn [andb orb negb] in *; lia.
Qed.

Lemma day_of_year_lt (y m d m' d' : Z) :
  valid_ymd y m d -> valid_ymd y m' d' -> m < m' ->
  days_before_month y m + d < days_before_month y m' + d'.
Proof.
  intros [Hm Hd] [Hm' Hd'] Hlt. unfold days_before_month, days_in_month in *.
  split_month Hm; split_month Hm'; try lia; eval_tables; destruct (is_leap y); cbn [andb orb negb] in *; lia.
Qed.

Lemma ymd2ord_lex (y m d y' m' d' : Z) :
  valid_ymd y m d -> valid_ymd y' m' d' ->
  ymd2ord y m d <= ymd2ord y' m' d' ->
  y < y' \/ (y = y' /\ (m < m' \/ (m = m' /\ d <= d'))).
Proof.
  intros Hv Hv' Hle. unfold ymd2ord in Hle.
  destruct (Z.lt_trichotomy y y') as [Hy|[Hy|Hy]]; [now left| |].
  - subst y'. right. split; [reflexivity|].
    destruct (Z.lt_trichotomy m m') as [Hm|[Hm|Hm]]; [now left| |].
    + subst m'. right. split; [reflexivity|lia].
    + pose proof (day_of_year_lt y m' d' m d Hv' Hv Hm). lia.
  - exfalso.
    pose proof (day_of_year_bounds y m d Hv).
    pose proof (day_of_year_bounds y' m' d' Hv').
    pose proof (days_before_year_succ y').
    pose proof (days_before_year_mono (y' + 1) y ltac:(lia)). lia.
Qed.

Lemma mod10_digit (x : Z) : 0 <= x mod 10 <= 9.
Proof. pose proof (Z.mod_pos_bound x 10 ltac:(lia)). lia. Qed.

Lemma compare_digit (a b : Z) (s t : string) :
  0 <= a <= 9 -> 0 <= b <= 9 ->
  String.compare (String (digit a) s) (String (digit b) t)
  = match a ?= b with Eq => String.compare s t | c => c end.
Proof.
  intros Ha Hb.
  assert (Ea : a = 0 \/ a = 1 \/ a = 2 \/ a = 3 \/ a = 4 \/ a = 5 \/ a = 6 \/ a = 7 \/ a = 8 \/ a = 9) by lia.
  assert (Eb : b = 0 \/ b = 1 \/ b = 2 \/ b = 3 \/ b = 4 \/ b = 5 \/ b = 6 \/ b = 7 \/ b = 8 \/ b = 9) by lia.
  repeat (destruct Ea as [->|Ea]); try subst a; repeat (destruct Eb as [->|Eb]); try subst b; reflexivity.
Qed.

Lemma compare_same (c : ascii) (s t : string) :
  String.compare (String c s) (String c t) = String.compare s t.
Proof.
  simpl. replace (Ascii.compare c c) with Eq; [reflexivity|].
  unfold Ascii.compare. now rewrite N.compare_refl.
Qed.

Lemma iso_ymd_leb (y m d y' m' d' : Z) :
  0 <= y <= 9999 -> 0 <= m <= 99 -> 0 <= d <= 99 ->
  0 <= y' <= 9999 -> 0 <= m' <= 99 -> 0 <= d' <= 99 ->
  y < y' \/ (y = y' /\ (m < m' \/ (m = m' /\ d <= d'))) ->
  (iso_ymd y m d <=? iso_ymd y' m' d')%string = true.
Proof.
  intros Hy Hm Hd Hy' Hm' Hd' Hlex.
  unfold String.leb, iso_ymd. cbn [zfill].
  repeat first [ rewrite compare_same
               | rewrite compare_digit by apply mod10_digit ].
  repeat match goal with
         | |- context [?a ?= ?b] => destruct (Z.compare_spec a b)
         end; try reflexivity; exfalso.
  all: Z.div_mod_to_equations; lia.
Qed.

Lemma iso_ymd_ltb (y m d y' m' d' : Z) :
  0 <= y <= 9999 -> 0 <= m <= 99 -> 0 <= d <= 99 ->
  0 <= y' <= 9999 -> 0 <= m' <= 99 -> 0 <= d' <= 99 ->
  y < y' \/ (y = y' /\ (m < m' \/ (m = m' /\ d < d'))) ->
  (iso_ymd y m d <? iso_ymd y' m' d')%string = true.
Proof.
  intros Hy Hm Hd Hy' Hm' Hd' Hlex.
  unfold String.ltb, iso_ymd. cbn [zfill].
  repeat first [ rewrite compare_same
               | rewrite compare_digit by apply mod10_digit ].
  repeat match goal with
         | |- context [?a ?= ?b] => destruct (Z.compare_spec a b)
         end; try reflexivity; exfalso.
  all: Z.div_mod_to_equations; lia.
Qed.

Lemma ord2ymd_unfold (ord : Z) :
  ord2ymd ord =
  let n := ord - 1 in
  let n400 := n / DI400Y in
  let r400 := n mod DI400Y in
  let n100 := r400 / DI100Y in
  let r100 := r400 mod DI100Y in
  let n4 := r100 / DI4Y in
  let r4 := r100 mod DI4Y in
  let n1 := r4 / 365 in
  let r1 := r4 mod 365 in
  let year := n400 * 400 + 1 + n100 * 100 + n4 * 4 + n1 in
  if (n1 =? 4) || (n100 =? 4) then (year - 1, 12, 31)
  else
    let '(m, d) := month_day r1 ((n1 =? 3) && (negb (n4 =? 24) || (n100 =? 3))) in
    (year, m, d).
Proof.
  unfold ord2ymd, month_day. cbv zeta.
  destruct (_ || _); [reflexivity|]. destruct (_ <? _); reflexivity.
Qed.

Lemma ord2ymd_spec (ord : Z) :
  1 <= ord <= MAXORDINAL ->
  let '(y, m, d) := ord2ymd ord in
  1 <= y <= 9999 /\ valid_ymd y m d /\ ymd2ord y m d = ord.
Proof.
  intros Hord. rewrite ord2ymd_unfold. cbv zeta.
  unfold DI400Y, DI100Y, DI4Y, MAXORDINAL in *.
  set (n := ord - 1).
  pose proof (Z.div_mod n 146097 ltac:(lia)) as E400.
  pose proof (Z.mod_pos_bound n 146097 ltac:(lia)) as B400.
  set (n400 := n / 146097) in *. set (r400 := n mod 146097) in *.
  pose proof (Z.div_mod r400 36524 ltac:(lia)) as E100.
  pose proof (Z.mod_pos_bound r400 36524 ltac:(lia)) as B100.
  set (n100 := r400 / 36524) in *. set (r100 := r400 mod 36524) in *.
  pose proof (Z.div_mod r100 1461 ltac:(lia)) as E4.
  pose proof (Z.mod_pos_bound r100 1461 ltac:(lia)) as B4.
  set (n4 := r100 / 1461) in *. set (r4 := r100 mod 1461) in *.
  pose proof (Z.div_mod r4 365 ltac:(lia)) as E1.
  pose proof (Z.mod_pos_bound r4 365 ltac:(lia)) as B1.
  set (n1 := r4 / 365) in *. set (r1 := r4 mod 365) in *.
  assert (Hn : n = ord - 1) by reflexivity. clearbody n n400 r400 n100 r100 n4 r4 n1 r1.
  assert (0 <= n400 <= 24) by lia.
  assert (0 <= n100 <= 4) by lia.
  assert (0 <= n4 <= 24) by lia.
  assert (0 <= n1 <= 4) by lia.
  set (year := n400 * 400 + 1 + n100 * 100 + n4 * 4 + n1).
  assert (Hyear : year = n400 * 400 + 1 + n100 * 100 + n4 * 4 + n1) by reflexivity.
  clearbody year.
  destruct (Z.eqb_spec n1 4) as [Hn1|Hn1]; destruct (Z.eqb_spec n100 4) as [Hn100|Hn100];
    cbn [orb].
  1-3: split; [lia|]; split;
    [ split; [lia|vm_compute; split; discriminate]
    | unfold ymd2ord, days_before_month, days_before_year, is_leap;
      eval_tables; 
      destruct (Z.eqb_spec ((year - 1) mod 4) 0);
      destruct (Z.eqb_spec ((year - 1) mod 100) 0);
      destruct (Z.eqb_spec ((year - 1) mod 400) 0);
      cbn [andb orb negb]; Z.div_mod_to_equations; lia ].
  set (leapyear := (n1 =? 3) && (negb (n4 =? 24) || (n100 =? 3))).
  assert (Hleap : is_leap year = leapyear).
  { unfold is_leap, leapyear.
    destruct (Z.eqb_spec (year mod 4) 0); destruct (Z.eqb_spec (year mod 100) 0);
      destruct (Z.eqb_spec (year mod 400) 0);
      destruct (Z.eqb_spec n1 3); destruct (Z.eqb_spec n4 24);
      destruct (Z.eqb_spec n100 3); cbn [andb orb negb]; try reflexivity;
      exfalso; Z.div_mod_to_equations; lia. }
  assert (Hr1 : 0 <= r1 < 365 + (if leapyear then 1 else 0))
    by (destruct leapyear; lia).
  pose proof (month_day_checked leapyear r1 Hr1) as Hmd.
  unfold month_day_ok in Hmd.
  destruct (month_day r1 leapyear) as [m d].
  rewrite !andb_true_iff in Hmd.
  destruct Hmd as [[[[Hm1 Hm2] Hd1] Hd2] Hsum].
  apply Z.leb_le in Hm1, Hm2, Hd1, Hd2. apply Z.eqb_eq in Hsum.
  split; [lia|]. split.
  - unfold valid_ymd, days_in_month. rewrite Hleap. lia.
  - unfold ymd2ord, days_before_month. rewrite Hleap.
    assert (days_before_year year = n - r1).
    { unfold days_before_year. Z.div_mod_to_equations. lia. }
    lia.
Qed.

Lemma isoformat_mono (a b : date) :
  1 <= a -> a <= b -> b <= MAXORDINAL ->
  (isoformat a <=? isoformat b)%string = true.
Proof.
  intros Ha Hab Hb.
  pose proof (ord2ymd_spec a ltac:(lia)) as Sa.
  pose proof (ord2ymd_spec b ltac:(lia)) as Sb.
  unfold isoformat.
  destruct (ord2ymd a) as [[y m] d]. destruct (ord2ymd b) as [[y' m'] d'].
  destruct Sa as [Hy [Hv Ea]]. destruct Sb as [Hy' [Hv' Eb]].
  pose proof (ymd2ord_lex y m d y' m' d' Hv Hv' ltac:(lia)) as Hlex.
  pose proof (day_of_year_bounds y m d Hv) as Hb1.
  pose proof (day_of_year_bounds y' m' d' Hv') as Hb2.
  destruct Hv as [Hm Hd]. destruct Hv' as [Hm' Hd'].
  assert (d <= 31).
  { unfold days_in_month in Hd. split_month Hm; eval_tables;
      destruct (is_leap y); cbn [andb] in Hd; lia. }
  assert (d' <= 31).
  { unfold days_in_month in Hd'. split_month Hm'; eval_tables;
      destruct (is_leap y'); cbn [andb] in Hd'; lia. }
  apply iso_ymd_leb; lia.
Qed.

Lemma isoformat_strict (a b : date) :
  1 <= a -> a < b -> b <= MAXORDINAL ->
  (isoformat a <? isoformat b)%string = true.
Proof.
  intros Ha Hab Hb.
  pose proof (ord2ymd_spec a ltac:(lia)) as Sa.
  pose proof (ord2ymd_spec b ltac:(lia)) as Sb.
  unfold isoformat.
  destruct (ord2ymd a) as [[y m] d]. destruct (ord2ymd b) as [[y' m'] d'].
  destruct Sa as [Hy [Hv Ea]]. destruct Sb as [Hy' [Hv' Eb]].
  pose proof (ymd2ord_lex y m d y' m' d' Hv Hv' ltac:(lia)) as Hlex.
  assert (Hne : ~ (y = y' /\ m = m' /\ d = d'))
    by (intros [-> [-> ->]]; lia).
  destruct Hv as [Hm Hd]. destruct Hv' as [Hm' Hd'].
  assert (d <= 31).
  { unfold days_in_month in Hd. split_month Hm; eval_tables;
      destruct (is_leap y); cbn [andb] in Hd; lia. }
  assert (d' <= 31).
  { unfold days_in_month in Hd'. split_month Hm'; eval_tables;
      destruct (is_leap y'); cbn [andb] in Hd'; lia. }
  apply iso_ymd_ltb; lia.
Qed.

(** ** The partition, edge by edge *)

Section PartitionFacts.

Variables (start end_ : datetime) (n_chunks : Z).
Hypothesis Hstart : valid_datetime start.
Hypothesis Hend : valid_datetime end_.

Local Abbreviation tdelta := (divide_and_round (end_ - start) n_chunks).

(** Edges move in one direction, so they are all representable as soon as
    the last one is. *)
Lemma edges_valid (i : Z) :
  valid_datetime (last_edge start end_ n_chunks) ->
  0 <= i < n_chunks -> valid_datetime (start + i * tdelta).
Proof.
  unfold last_edge. unfold valid_datetime in *.
  intros Hl Hi. destruct (Z_le_gt_dec 0 tdelta); nia.
Qed.

Lemma edges_of_ok :
  (forall i, 0 <= i < n_chunks -> valid_datetime (start + i * tdelta)) ->
  edges_of start tdelta n_chunks
  = Ok (map (fun i => isoformat (edge_day start tdelta i)) (range n_chunks)).
Proof.
  intros H. unfold edges_of. apply mapM_ok.
  intros i Hi. apply in_range in Hi. apply edge_ok; auto.
Qed.

(** The windows the cell computes when all edges are representable. *)
Lemma partition_eq :
  n_chunks <> 0 ->
  (forall i, 0 <= i < n_chunks -> valid_datetime (start + i * tdelta)) ->
  partition start end_ n_chunks
  = Ok (adjacent (map (fun i => isoformat (edge_day start tdelta i))
                      (range n_chunks))).
Proof.
  intros Hn H. unfold partition.
  rewrite tdelta_of_ok by assumption. simpl.
  rewrite edges_of_ok by assumption. simpl.
  apply slots_of_adjacent.
Qed.

Lemma partition_overflow (i : Z) :
  n_chunks <> 0 -> 0 <= i < n_chunks -> ~ valid_datetime (start + i * tdelta) ->
  partition start end_ n_chunks = Raise OverflowError.
Proof.
  intros Hn Hi Hv. unfold partition.
  rewrite tdelta_of_ok by assumption. simpl.
  destruct (edges_of start tdelta n_chunks) as [edges|e] eqn:E; simpl.
  - exfalso. unfold edges_of in E.
    destruct (mapM_raise_at (edge start tdelta) (range n_chunks) i OverflowError)
      as [e' He'].
    + now apply in_range.
    + now apply edge_overflow.
    + congruence.
  - unfold edges_of in E. apply mapM_raise in E. destruct E as [j [Hj Ej]].
    apply in_range in Hj.
    destruct (valid_datetime_dec (start + j * tdelta)) as [Hvj|Hvj].
    + rewrite edge_ok in Ej by assumption. discriminate.
    + rewrite edge_overflow in Ej by assumption. congruence.
Qed.

Lemma partition_zero_division :
  partition start end_ 0 = Raise ZeroDivisionError.
Proof. unfold partition. now rewrite tdelta_of_zero. Qed.

(** Rounding [tdelta] to a whole microsecond moves the last edge by less
    than [n_chunks] microseconds from [end_]. *)
Lemma last_edge_forward :
  start <= end_ -> 1 <= n_chunks ->
  start <= last_edge start end_ n_chunks <= end_ + n_chunks.
Proof.
  intros Hse Hn. unfold last_edge.
  pose proof (divide_and_round_near (end_ - start) n_chunks ltac:(lia)) as Hr.
  pose proof (divide_and_round_nonneg (end_ - start) n_chunks ltac:(lia) ltac:(lia)) as H0.
  assert (2 * (n_chunks * tdelta) <= 2 * (end_ - start) + n_chunks) by lia.
  split; [nia|].
  assert (2 * (n_chunks * ((n_chunks - 1) * tdelta))
          <= 2 * (n_chunks * (end_ - start + n_chunks))) by nia.
  nia.
Qed.

Lemma last_edge_backward :
  end_ <= start -> 1 <= n_chunks ->
  end_ - n_chunks <= last_edge start end_ n_chunks <= start.
Proof.
  intros Hse Hn. unfold last_edge.
  pose proof (divide_and_round_near (end_ - start) n_chunks ltac:(lia)) as Hr.
  pose proof (divide_and_round_nonpos (end_ - start) n_chunks ltac:(lia) ltac:(lia)) as H0.
  assert (2 * (end_ - start) - n_chunks <= 2 * (n_chunks * tdelta)) by lia.
  split; [|nia].
  assert (2 * (n_chunks * (end_ - start - n_chunks))
          <= 2 * (n_chunks * ((n_chunks - 1) * tdelta))) by nia.
  nia.
Qed.

End PartitionFacts.

(** ** Windows of a successful partition *)

Section Windows.

Variables (start end_ : datetime) (n_chunks : Z).
Hypothesis Hstart : valid_datetime start.
Hypothesis Hend : valid_datetime end_.
Hypothesis Horder : start < end_.
Hypothesis Hchunks : 1 <= n_chunks.
(** The last edge is a datetime, so the first comprehension succeeds. *)
Hypothesis Hlast : valid_datetime (last_edge start end_ n_chunks).

Local Abbreviation tdelta := (divide_and_round (end_ - start) n_chunks).
Local Abbreviation edges :=
  (map (fun i => isoformat (edge_day start tdelta i)) (range n_chunks)).

Lemma forward_edges_valid (i : Z) :
  0 <= i < n_chunks -> valid_datetime (start + i * tdelta).
Proof.
  now apply edges_valid.
Qed.

Lemma forward_partition : partition start end_ n_chunks = Ok (adjacent edges).
Proof.
  apply partition_eq; try assumption; [lia|]. apply forward_edges_valid.
Qed.

Lemma edges_nth_error (i : nat) (e : string) :
  nth_error edges i = Some e ->
  Z.of_nat i < n_chunks /\ e = isoformat (edge_day start tdelta (Z.of_nat i)).
Proof.
  intros H. unfold range in H. rewrite map_map in H.
  assert (Hi : (i < Z.to_nat n_chunks)%nat).
  { assert (Hn : nth_error (map (fun x => isoformat (edge_day start tdelta (Z.of_nat x)))
                               (seq 0 (Z.to_nat n_chunks))) i <> None) by congruence.
    apply nth_error_Some in Hn. now rewrite length_map, length_seq in Hn. }
  rewrite nth_error_map in H. rewrite nth_error_seq in H.
  apply Nat.ltb_lt in Hi. rewrite Hi in H. apply Nat.ltb_lt in Hi.
  simpl in H. injection H as <-. split; [lia|reflexivity].
Qed.

Lemma forward_edges_ascending (i j : nat) (a b : string) :
  (i <= j)%nat -> nth_error edges i = Some a -> nth_error edges j = Some b ->
  (a <=? b)%string = true.
Proof.
  intros Hij Ha Hb.
  apply edges_nth_error in Ha, Hb. destruct Ha as [Hi ->], Hb as [Hj ->].
  pose proof (divide_and_round_nonneg (end_ - start) n_chunks ltac:(lia) ltac:(lia)).
  pose proof (dt_date_valid _ (forward_edges_valid (Z.of_nat i) ltac:(lia))).
  pose proof (dt_date_valid _ (forward_edges_valid (Z.of_nat j) ltac:(lia))).
  apply isoformat_mono; try (unfold edge_day; lia).
  apply edge_day_mono; lia.
Qed.

Lemma edges_nth (i : nat) :
  Z.of_nat i < n_chunks ->
  nth_error edges i = Some (isoformat (edge_day start tdelta (Z.of_nat i))).
Proof.
  intros Hi. unfold range. rewrite map_map, nth_error_map, nth_error_seq.
  destruct (Nat.ltb_spec i (Z.to_nat n_chunks)); [reflexivity|lia].
Qed.

(** With two edges or more, the first window starts on the day of [start]. *)
Lemma forward_first_window :
  2 <= n_chunks ->
  exists slots w,
    partition start end_ n_chunks = Ok slots
    /\ nth_error slots 0 = Some w /\ fst w = isoformat (dt_date start).
Proof.
  intros H2. rewrite forward_partition.
  exists (adjacent edges),
         (isoformat (edge_day start tdelta 0), isoformat (edge_day start tdelta 1)).
  split; [reflexivity|]. split.
  - apply adjacent_nth_error. split; [apply (edges_nth 0)|apply (edges_nth 1)]; lia.
  - simpl. unfold edge_day. now rewrite Z.mul_0_l, Z.add_0_r.
Qed.

(** The last window ends on the day of the last edge. *)
Lemma forward_last_window :
  2 <= n_chunks ->
  exists slots w,
    partition start end_ n_chunks = Ok slots
    /\ nth_error slots (Z.to_nat (n_chunks - 2)) = Some w
    /\ len slots = n_chunks - 1
    /\ snd w = isoformat (dt_date (last_edge start end_ n_chunks)).
Proof.
  intros H2. rewrite forward_partition.
  exists (adjacent edges),
         (isoformat (edge_day start tdelta (n_chunks - 2)),
          isoformat (edge_day start tdelta (n_chunks - 1))).
  split; [reflexivity|]. split; [|split].
  - apply adjacent_nth_error. split.
    + rewrite edges_nth by lia. do 3 f_equal. lia.
    + rewrite edges_nth by lia. do 3 f_equal. lia.
  - apply windows_length. lia.
  - reflexivity.
Qed.

(** The last edge falls short of [end_]: [tdelta] is the span divided by
    [n_chunks], and only [n_chunks - 1] steps are taken.  When every chunk
    is longer than a day (by [n_chunks] microseconds), the last window ends
    on a day strictly before the day of [end_]. *)
Lemma last_edge_short :
  n_chunks * (US_PER_DAY + n_chunks) <= end_ - start ->
  last_edge start end_ n_chunks + US_PER_DAY <= end_.
Proof.
  intros Hspan. unfold last_edge.
  pose proof (divide_and_round_near (end_ - start) n_chunks ltac:(lia)) as Hr.
  pose proof US_PER_DAY_pos.
  assert (2 * (n_chunks * tdelta) <= 2 * (end_ - start) + n_chunks) by lia.
  assert (2 * (n_chunks * ((n_chunks - 1) * tdelta))
          <= (n_chunks - 1) * (2 * (end_ - start) + n_chunks)) by nia.
  nia.
Qed.

Lemma forward_last_window_short :
  2 <= n_chunks ->
  n_chunks * (US_PER_DAY + n_chunks) <= end_ - start ->
  exists slots w,
    partition start end_ n_chunks = Ok slots
    /\ nth_error slots (Z.to_nat (n_chunks - 2)) = Some w
    /\ len slots = n_chunks - 1
    /\ (snd w <? isoformat (dt_date end_))%string = true.
Proof.
  intros H2 Hspan.
  destruct (forward_last_window H2) as [slots [w [E [Hw [Hl Hs]]]]].
  exists slots, w. repeat split; try assumption.
  rewrite Hs.
  pose proof (last_edge_short Hspan) as Hshort.
  pose proof (dt_date_valid _ Hlast). pose proof (dt_date_valid _ Hend).
  apply isoformat_strict; try lia.
  unfold dt_date.
  apply Z.lt_le_trans with ((last_edge start end_ n_chunks + US_PER_DAY) / US_PER_DAY).
  - replace (last_edge start end_ n_chunks + US_PER_DAY)
      with (last_edge start end_ n_chunks + 1 * US_PER_DAY) by lia.
    rewrite Z.div_add by (unfold US_PER_DAY; lia). lia.
  - apply Z.div_le_mono; [apply US_PER_DAY_pos|exact Hshort].
Qed.

End Windows.

(** ** The reduction *)

Section Reduction.

Lemma zsum_app (l l' : list Z) : zsum (l ++ l') = zsum l + zsum l'.
Proof. induction l as [|x l IH]; simpl; [reflexivity|rewrite IH; lia]. Qed.

Lemma zsum_concat (m : list (list Z)) : zsum (map zsum m) = zsum (List.concat m).
Proof.
  induction m as [|r m IH]; simpl; [reflexivity|].
  now rewrite zsum_app, IH.
Qed.

(** On a list of zeros and ones the sum is the number of ones. *)
Lemma zsum_mask (l : list Z) :
  forallb (fun v => (v =? 0) || (v =? 1)) l = true ->
  zsum l = Z.of_nat (List.length (filter (Z.eqb 1) l)).
Proof.
  induction l as [|v l IH]; [reflexivity|].
  cbn [forallb]. intros H. apply andb_true_iff in H. destruct H as [Hv Hl].
  cbn [zsum fold_right filter]. fold (zsum l). rewrite (IH Hl).
  apply orb_true_iff in Hv.
  destruct Hv as [Hv|Hv]; apply Z.eqb_eq in Hv; subst v.
  - change (1 =? 0) with false. cbv iota. lia.
  - change (1 =? 1) with true. cbv iota. cbn [List.length]. lia.
Qed.

Lemma slice_band_4 (image : ndarray) :
  slice_band image 4
  = if 5 <=? Z.of_nat (bands image)
    then Ok (map (map (fun px => nth 4 px 0)) (data image))
    else Raise IndexError.
Proof.
  unfold slice_band. change (4 <? 0) with false. cbv iota.
  change (0 <=? 4) with true. cbn [andb].
  destruct (Z.ltb_spec 4 (Z.of_nat (bands image)));
    destruct (Z.leb_spec 5 (Z.of_nat (bands image))); try lia; reflexivity.
Qed.

(** What the function returns: the sum of band 4, in [uint64]. *)
Lemma count_ice_pixels_eq (image : ndarray) :
  count_ice_pixels image
  = if 5 <=? Z.of_nat (bands image)
    then Ok (zsum (band_values image 4) mod 2 ^ 64)
    else Raise IndexError.
Proof.
  unfold count_ice_pixels. rewrite slice_band_4.
  destruct (5 <=? Z.of_nat (bands image)); simpl; [|reflexivity].
  unfold np_sum, band_values. now rewrite zsum_concat.
Qed.

Lemma count_value_nonneg (v : Z) (image : ndarray) : 0 <= count_value v image.
Proof. unfold count_value. lia. Qed.

(** On a mask the loop body yields the area of the pixels marked 1. *)
Lemma ice_area_of_mask (p : promotion) (image : ndarray) :
  5 <= Z.of_nat (bands image) ->
  is_mask image = true ->
  count_value 1 image < 2 ^ 64 ->
  ice_area p image = Ok (area_of_count p (count_value 1 image)).
Proof.
  intros Hb Hm Hfit. unfold ice_area. rewrite count_ice_pixels_eq.
  destruct (Z.leb_spec 5 (Z.of_nat (bands image))); [|lia]. simpl.
  unfold is_mask in Hm. rewrite (zsum_mask _ Hm). fold (count_value 1 image).
  pose proof (count_value_nonneg 1 image).
  rewrite (Z.mod_small (count_value 1 image)) by lia. reflexivity.
Qed.

(** In [uint64] the product does not wrap as long as it fits. *)
Lemma area_of_count_nep50 (c : Z) :
  0 <= c -> c * 400 < 2 ^ 64 -> area_of_count Nep50 c = km2_of_pixels c.
Proof.
  intros H0 Hfit. unfold area_of_count, km2_of_pixels, scalar_mul, true_divide.
  change (20 * 20) with 400. now rewrite Z.mod_small by lia.
Qed.

(** On the counts of the scenario both promotions give the float of the
    integer expression. *)
Lemma area_of_count_scenario (p : promotion) (i : nat) :
  (i < 16)%nat -> area_of_count p (Z.of_nat i * 100) = km2_of_pixels (Z.of_nat i * 100).
Proof.
  intros Hi.
  do 16 (destruct i as [|i]; [destruct p; vm_compute; reflexivity|]). lia.
Qed.

Lemma mapM_indexed {A B : Type} (f : A -> result B) (g : nat -> B) (l : list A) (s : nat) :
  (forall i x, nth_error l i = Some x -> f x = Ok (g (s + i)%nat)) ->
  mapM f l = Ok (map g (seq s (List.length l))).
Proof.
  revert s. induction l as [|x l IH]; intros s H; simpl; [reflexivity|].
  rewrite (H O x eq_refl). rewrite Nat.add_0_r. simpl.
  rewrite (IH (S s)); [reflexivity|].
  intros i y Hy. rewrite (H (S i) y Hy). f_equal. f_equal. lia.
Qed.

End Reduction.

(** ** What the partition cell guarantees *)

Ltac by_evaluation := vm_compute; repeat split; solve [reflexivity | discriminate].

(** Every outcome of the partition cell on representable [start] and
    [end_]. *)
Lemma partition_cases (start end_ : datetime) (n_chunks : Z) :
  valid_datetime start -> valid_datetime end_ ->
  (n_chunks = 0 /\ partition start end_ n_chunks = Raise ZeroDivisionError)
  \/ (n_chunks < 0 /\ partition start end_ n_chunks = Ok [])
  \/ (1 <= n_chunks /\ valid_datetime (last_edge start end_ n_chunks)
      /\ exists slots, partition start end_ n_chunks = Ok slots
                       /\ len slots = n_chunks - 1)
  \/ (1 <= n_chunks /\ ~ valid_datetime (last_edge start end_ n_chunks)
      /\ partition start end_ n_chunks = Raise OverflowError).
Proof.
  intros Hs He.
  destruct (Z.lt_trichotomy n_chunks 0) as [Hn|[Hn|Hn]].
  - right; left. split; [assumption|].
    rewrite partition_eq by (assumption || lia).
    now rewrite range_nonpos by lia.
  - left. subst. split; [reflexivity|]. now apply partition_zero_division.
  - right; right.
    destruct (valid_datetime_dec (last_edge start end_ n_chunks)) as [Hv|Hv].
    + left. split; [lia|]. split; [assumption|].
      eexists. split.
      * apply partition_eq; try assumption; [lia|].
        intros i Hi. now apply edges_valid.
      * apply windows_length. lia.
    + right. split; [lia|]. split; [assumption|].
      apply (partition_overflow start end_ n_chunks Hs He (n_chunks - 1));
        [lia|lia|exact Hv].
Qed.

(** A partition that returns has computed its last edge. *)
Lemma partition_ok_last_edge (start end_ : datetime) (n_chunks : Z) slots :
  valid_datetime start -> valid_datetime end_ -> 1 <= n_chunks ->
  partition start end_ n_chunks = Ok slots ->
  valid_datetime (last_edge start end_ n_chunks).
Proof.
  intros Hs He Hn H.
  destruct (partition_cases start end_ n_chunks Hs He)
    as [[Hn' E]|[[Hn' E]|[[Hn' [Hv _]]|[Hn' [Hv E]]]]];
    try lia; [assumption|congruence].
Qed.

(** Room for the rounding of [tdelta]: see [last_edge_forward]. *)
Lemma room_last_edge (start end_ : datetime) (n_chunks : Z) :
  valid_datetime start -> start <= end_ -> 1 <= n_chunks ->
  valid_datetime (end_ + n_chunks) ->
  valid_datetime (last_edge start end_ n_chunks).
Proof.
  intros Hs Hle Hn Hroom.
  pose proof (last_edge_forward start end_ n_chunks Hle Hn).
  unfold valid_datetime in *. lia.
Qed.

(** C1, counterexample: with the dates and the 17 chunks of
    ice_monitoring.ipynb the input is valid ([end > start], [n_chunks >= 1])
    and the cell returns 16 windows, not 17. *)
Lemma partition_17_chunks_16_windows :
  mk_datetime 2022 9 1 < mk_datetime 2023 4 30 /\ 1 <= 17
  /\ exists slots,
       partition (mk_datetime 2022 9 1) (mk_datetime 2023 4 30) 17 = Ok slots
       /\ len slots = 16 /\ len slots <> 17.
Proof.
  split; [reflexivity|]. split; [discriminate|].
  eexists. split; [vm_compute; reflexivity|]. split; [reflexivity|discriminate].
Qed.

(** C1, amended: for representable datetimes [start < end_] and
    [n_chunks >= 1] the partition returns a sequence of exactly
    [n_chunks - 1] windows: [range(n_chunks)] yields [n_chunks] edges, and
    the windows are the pairs of consecutive edges.  It does return when
    [end_] is at least [n_chunks] microseconds before the end of the datetime
    range (the rounding of [tdelta] can push the last edge past [end_]). *)
Theorem partition_length (start end_ : datetime) (n_chunks : Z) :
  valid_datetime start -> valid_datetime end_ -> start < end_ ->
  1 <= n_chunks ->
  (valid_datetime (end_ + n_chunks) ->
   exists slots, partition start end_ n_chunks = Ok slots)
  /\ (forall slots,
        partition start end_ n_chunks = Ok slots -> len slots = n_chunks - 1).
Proof.
  intros Hs He Hlt Hn. split.
  - intros Hroom. rewrite (forward_partition start end_ n_chunks);
      eauto using room_last_edge with zarith.
  - intros slots H.
    rewrite (forward_partition start end_ n_chunks) in H;
      eauto using partition_ok_last_edge.
    injection H as <-. apply windows_length. lia.
Qed.

(** The 13 chunks of the year 2019, as in the multiple-timestamps example:
    12 windows. *)
Lemma partition_length_witness :
  exists slots,
    partition (mk_datetime 2019 1 1) (mk_datetime 2019 12 31) 13 = Ok slots
    /\ len slots = 12.
Proof.
  destruct (partition_length (mk_datetime 2019 1 1) (mk_datetime 2019 12 31) 13)
    as [Hret Hlen]; try by_evaluation.
  destruct Hret as [slots E]; [by_evaluation|].
  exists slots. split; [exact E|exact (Hlen slots E)].
Defined.

(** C2, the code at the failing input: with the dates and the 17 chunks of
    ice_monitoring.ipynb the last of the 16 windows ends on 2023-04-15, the
    day of [start + 16 * tdelta], while [end] is 2023-04-30: the days from
    2023-04-15 to 2023-04-30 are in no window. *)
Theorem partition_stops_before_end :
  exists slots,
    partition (mk_datetime 2022 9 1) (mk_datetime 2023 4 30) 17 = Ok slots
    /\ len slots = 16
    /\ nth_error slots 0 = Some ("2022-09-01", "2022-09-15")%string
    /\ nth_error slots 15 = Some ("2023-04-01", "2023-04-15")%string
    /\ isoformat (dt_date (mk_datetime 2022 9 1)) = "2022-09-01"%string
    /\ isoformat (dt_date (mk_datetime 2023 4 30)) = "2023-04-30"%string.
Proof. eexists. split; [vm_compute; reflexivity|]. by_evaluation. Qed.

(** C3: for representable datetimes [start < end_] and [n_chunks >= 1],
    in the windows the partition returns every window ends exactly where the
    next one starts, and the start dates, as ISO strings, never decrease
    along the sequence.  The partition does return when [end_] is at least
    [n_chunks] microseconds before the end of the datetime range. *)
Theorem partition_contiguous_ascending (start end_ : datetime) (n_chunks : Z) :
  valid_datetime start -> valid_datetime end_ -> start < end_ ->
  1 <= n_chunks ->
  (valid_datetime (end_ + n_chunks) ->
   exists slots, partition start end_ n_chunks = Ok slots)
  /\ (forall slots,
        partition start end_ n_chunks = Ok slots ->
        contiguous slots /\ ascending_starts slots).
Proof.
  intros Hs He Hlt Hn. split.
  - intros Hroom. rewrite (forward_partition start end_ n_chunks);
      eauto using room_last_edge with zarith.
  - intros slots H.
    assert (Hlast : valid_datetime (last_edge start end_ n_chunks))
      by eauto using partition_ok_last_edge.
    rewrite (forward_partition start end_ n_chunks) in H by assumption.
    injection H as <-. split.
    + intros i [a b] [c d] H1 H2.
      apply adjacent_nth_error in H1, H2. simpl. destruct H1, H2. congruence.
    + intros i j [a b] [c d] Hij H1 H2.
      apply adjacent_nth_error in H1, H2. simpl.
      destruct H1 as [H1 _], H2 as [H2 _].
      eapply (forward_edges_ascending start end_ n_chunks); eassumption.
Qed.

(** The 17 chunks of ice_monitoring.ipynb. *)
Lemma partition_contiguous_ascending_witness :
  exists slots,
    partition (mk_datetime 2022 9 1) (mk_datetime 2023 4 30) 17 = Ok slots
    /\ contiguous slots /\ ascending_starts slots.
Proof.
  destruct (partition_contiguous_ascending
              (mk_datetime 2022 9 1) (mk_datetime 2023 4 30) 17)
    as [Hret Hprop]; try by_evaluation.
  destruct Hret as [slots E]; [by_evaluation|].
  exists slots. split; [exact E|exact (Hprop slots E)].
Defined.

(** C4, counterexample: the cell rejects neither a reversed range nor a
    negative chunk count.  With [end < start] and 17 chunks it returns 16
    windows (running backwards), and with -3 chunks it returns the empty
    sequence. *)
Lemma partition_accepts_invalid_range :
  mk_datetime 2022 9 1 <= mk_datetime 2023 4 30
  /\ (exists slots,
        partition (mk_datetime 2023 4 30) (mk_datetime 2022 9 1) 17 = Ok slots
        /\ len slots = 16
        /\ nth_error slots 0 = Some ("2023-04-30", "2023-04-15")%string)
  /\ -3 < 1
  /\ partition (mk_datetime 2022 9 1) (mk_datetime 2023 4 30) (-3) = Ok [].
Proof.
  split; [discriminate|]. split.
  - eexists. split; [vm_compute; reflexivity|]. by_evaluation.
  - by_evaluation.
Qed.

(** C4, amended: the partition code validates nothing and has no
    InvalidRangeError.  On representable [start] and [end_] it fails exactly
    when [n_chunks = 0] (ZeroDivisionError, raised by the division) or when
    [n_chunks >= 1] and the last edge is not a representable datetime
    (OverflowError).  In every other case, [end_ <= start] and
    [n_chunks < 0] included, a sequence of [max(0, n_chunks - 1)] windows
    is returned. *)
Theorem partition_failure_cases (start end_ : datetime) (n_chunks : Z) :
  valid_datetime start -> valid_datetime end_ ->
  ((exists e, partition start end_ n_chunks = Raise e)
   <-> n_chunks = 0
       \/ (1 <= n_chunks /\ ~ valid_datetime (last_edge start end_ n_chunks)))
  /\ (forall e, partition start end_ n_chunks = Raise e ->
        (n_chunks = 0 /\ e = ZeroDivisionError)
        \/ (1 <= n_chunks /\ e = OverflowError))
  /\ (forall slots, partition start end_ n_chunks = Ok slots ->
        len slots = Z.max 0 (n_chunks - 1))
  /\ (n_chunks < 0 -> partition start end_ n_chunks = Ok [])
  /\ (end_ <= start -> 1 <= n_chunks -> valid_datetime (end_ - n_chunks) ->
      exists slots,
        partition start end_ n_chunks = Ok slots /\ len slots = n_chunks - 1).
Proof.
  intros Hs He.
  pose proof (partition_cases start end_ n_chunks Hs He) as Hc.
  repeat split.
  - intros [e H].
    destruct Hc as [[Hn E]|[[Hn E]|[[Hn [Hv [sl [E Hl]]]]|[Hn [Hv E]]]]];
      rewrite E in H; try discriminate; auto.
  - intros H.
    destruct Hc as [[Hn E]|[[Hn E]|[[Hn [Hv [sl [E Hl]]]]|[Hn [Hv E]]]]];
      rewrite E; eauto; exfalso; destruct H as [H|[H1 H2]]; try lia; contradiction.
  - intros e H.
    destruct Hc as [[Hn E]|[[Hn E]|[[Hn [Hv [sl [E Hl]]]]|[Hn [Hv E]]]]];
      rewrite E in H; try discriminate; injection H as <-; auto.
  - intros slots H.
    destruct Hc as [[Hn E]|[[Hn E]|[[Hn [Hv [sl [E Hl]]]]|[Hn [Hv E]]]]];
      rewrite E in H; try discriminate; injection H as <-.
    + unfold len. simpl. lia.
    + lia.
  - intros H.
    destruct Hc as [[Hn E]|[[Hn E]|[[Hn [Hv [sl [E Hl]]]]|[Hn [Hv E]]]]];
      try lia; exact E.
  - intros Hle Hn Hroom.
    pose proof (last_edge_backward start end_ n_chunks Hle Hn) as Hb.
    destruct Hc as [[Hn' E]|[[Hn' E]|[[Hn' [Hv [sl [E Hl]]]]|[Hn' [Hv E]]]]];
      try lia; [eauto|].
    exfalso. apply Hv. unfold valid_datetime in *. lia.
Qed.

(** The reversed range of ice_monitoring.ipynb, 17 chunks. *)
Lemma partition_failure_cases_witness :
  ((exists e, partition (mk_datetime 2023 4 30) (mk_datetime 2022 9 1) 17 = Raise e)
   <-> 17 = 0
       \/ (1 <= 17
           /\ ~ valid_datetime
                  (last_edge (mk_datetime 2023 4 30) (mk_datetime 2022 9 1) 17)))
  /\ (forall e,
        partition (mk_datetime 2023 4 30) (mk_datetime 2022 9 1) 17 = Raise e ->
        (17 = 0 /\ e = ZeroDivisionError) \/ (1 <= 17 /\ e = OverflowError))
  /\ (forall slots,
        partition (mk_datetime 2023 4 30) (mk_datetime 2022 9 1) 17 = Ok slots ->
        len slots = Z.max 0 (17 - 1))
  /\ (17 < 0 -> partition (mk_datetime 2023 4 30) (mk_datetime 2022 9 1) 17 = Ok [])
  /\ (mk_datetime 2022 9 1 <= mk_datetime 2023 4 30 -> 1 <= 17 ->
      valid_datetime (mk_datetime 2022 9 1 - 17) ->
      exists slots,
        partition (mk_datetime 2023 4 30) (mk_datetime 2022 9 1) 17 = Ok slots
        /\ len slots = 17 - 1).
Proof.
  apply (partition_failure_cases (mk_datetime 2023 4 30) (mk_datetime 2022 9 1) 17);
    by_evaluation.
Defined.

(** C5: a valid input ([end > start], [n_chunks >= 1]) whose windows have
    zero length.  One day cut into 3 chunks gives edges 8 hours apart, all
    three on the same calendar day; the cell accepts the input and keeps both
    duplicate windows. *)
Theorem partition_zero_length_window :
  exists (start end_ : datetime) (n_chunks : Z) (day : string),
    valid_datetime start /\ valid_datetime end_
    /\ start < end_ /\ 1 <= n_chunks
    /\ partition start end_ n_chunks = Ok [(day, day); (day, day)].
Proof.
  exists (mk_datetime 2022 9 1), (mk_datetime 2022 9 2), 3, "2022-09-01"%string.
  by_evaluation.
Qed.

(** C9: for representable datetimes [start < end_], one chunk gives no
    window at all: [range(1)] yields the single edge of [start], and
    [range(len(edges) - 1)] is empty. *)
Theorem partition_one_chunk (start end_ : datetime) :
  valid_datetime start -> valid_datetime end_ -> start < end_ ->
  partition start end_ 1 = Ok [].
Proof.
  intros Hs He Hlt. rewrite partition_eq; try assumption; [reflexivity|lia|].
  intros i Hi. replace i with 0 by lia. now rewrite Z.mul_0_l, Z.add_0_r.
Qed.

(** The dates of ice_monitoring.ipynb with a single chunk. *)
Lemma partition_one_chunk_witness :
  partition (mk_datetime 2022 9 1) (mk_datetime 2023 4 30) 1 = Ok [].
Proof.
  apply (partition_one_chunk (mk_datetime 2022 9 1) (mk_datetime 2023 4 30));
    by_evaluation.
Defined.

(** ** What the reduction cells guarantee *)

Lemma km2_increasing_checked :
  forallb (fun i =>
    forallb (fun j =>
      implb (i <? j)
            (PrimFloat.ltb (km2_of_pixels (i * 100)) (km2_of_pixels (j * 100))))
      (range 16))
    (range 16) = true.
Proof. vm_compute. reflexivity. Qed.

Lemma km2_increasing (i j : nat) :
  (i < j)%nat -> (j < 16)%nat ->
  PrimFloat.ltb (km2_of_pixels (Z.of_nat i * 100)) (km2_of_pixels (Z.of_nat j * 100))
  = true.
Proof.
  intros Hij Hj. pose proof km2_increasing_checked as H.
  rewrite forallb_forall in H.
  specialize (H (Z.of_nat i) ltac:(apply in_range; lia)).
  rewrite forallb_forall in H.
  specialize (H (Z.of_nat j) ltac:(apply in_range; lia)).
  destruct (Z.ltb_spec (Z.of_nat i) (Z.of_nat j)); [exact H|lia].
Qed.

Lemma marked_then_two_wf (k : nat) : wf (marked_then_two k) = true.
Proof.
  unfold wf, marked_then_two. cbn [height width bands data List.length forallb].
  rewrite length_app, repeat_length. cbn [List.length].
  rewrite Nat.eqb_refl, forallb_app. cbn.
  rewrite !andb_true_r. clear. induction k as [|k IH]; [reflexivity|exact IH].
Qed.

Lemma marked_then_two_band (k : nat) :
  band_values (marked_then_two k) 4 = repeat 1 k ++ [2].
Proof.
  unfold band_values, marked_then_two. cbn [data map List.concat].
  rewrite app_nil_r, map_app. cbn [map nth]. f_equal.
  induction k as [|k IH]; [reflexivity|cbn [repeat map nth]; now rewrite IH].
Qed.

Lemma marked_then_two_count (k : nat) :
  count_value 1 (marked_then_two k) = Z.of_nat k
  /\ zsum (band_values (marked_then_two k) 4) = Z.of_nat k + 2.
Proof.
  unfold count_value. rewrite marked_then_two_band. split.
  - rewrite filter_app, length_app. cbn [filter Z.eqb Pos.eqb List.length].
    replace (filter (Z.eqb 1) (repeat 1 k)) with (repeat 1 k).
    + rewrite repeat_length. lia.
    + induction k as [|k IH]; [reflexivity|].
      cbn [repeat filter]. change (1 =? 1) with true. cbv iota. now rewrite <- IH.
  - rewrite zsum_app. cbn [zsum fold_right].
    replace (zsum (repeat 1 k)) with (Z.of_nat k); [lia|].
    induction k as [|k IH]; [reflexivity|].
    cbn [repeat zsum fold_right]. fold (zsum (repeat 1 k)). lia.
Qed.

(** C6, counterexample: 16 well-formed rasters of 5 bands in which raster
    [i] has [i * 100] pixels equal to the sentinel 1 in band 4 and one more
    pixel that holds 2.  The loop returns a series, but its scalar at index 0
    is the area of 2 pixels, not of [0 * 100]: [np.sum] adds the values of
    the band. *)
Lemma end_to_end_unmarked_pixels :
  len marked_then_two_series = 16
  /\ Forall (fun i =>
              wf (marked_then_two (i * 100)) = true
              /\ bands (marked_then_two (i * 100)) = 5%nat
              /\ nth_error marked_then_two_series i
                 = Some (marked_then_two (i * 100))
              /\ count_value 1 (marked_then_two (i * 100)) = Z.of_nat i * 100)
            (seq 0 16)
  /\ (exists areas,
        area_covered_ice Nep50 marked_then_two_series = Ok areas
        /\ nth_error areas 0 = Some (km2_of_pixels 2))
  /\ (exists areas,
        area_covered_ice Legacy marked_then_two_series = Ok areas
        /\ nth_error areas 0 = Some (km2_of_pixels 2))
  /\ PrimFloat.eqb (km2_of_pixels 2) (km2_of_pixels (0 * 100)) = false.
Proof.
  assert (Hloop : forall p,
             area_covered_ice p marked_then_two_series
             = Ok (map (fun image =>
                          true_divide
                            (scalar_mul p (zsum (band_values image 4) mod 2 ^ 64)
                                        resolution_s1) 1000000)
                       marked_then_two_series)).
  { intros p. unfold area_covered_ice. apply mapM_ok. intros image Hin.
    unfold marked_then_two_series in Hin. apply in_map_iff in Hin.
    destruct Hin as [i [<- _]]. unfold ice_area.
    rewrite count_ice_pixels_eq. reflexivity. }
  split; [reflexivity|]. split; [|split; [|split]].
  - apply Forall_forall. intros i Hi. apply in_seq in Hi.
    split; [apply marked_then_two_wf|]. split; [reflexivity|]. split.
    + unfold marked_then_two_series. rewrite nth_error_map, nth_error_seq.
      destruct (Nat.ltb_spec i 16); [reflexivity|lia].
    + rewrite (proj1 (marked_then_two_count (i * 100))). lia.
  - eexists. split; [apply Hloop|]. vm_compute. reflexivity.
  - eexists. split; [apply Hloop|]. vm_compute. reflexivity.
  - reflexivity.
Qed.

(** C6, amended: the partition of 2022-09-01 .. 2023-04-30 into 17 chunks
    has 16 windows; and on 16 rasters of at least 5 bands whose band 4 is a
    mask, every pixel 0 or 1, with [i * 100] pixels marked 1 in raster [i],
    the loop over [mask_data] produces 16 areas, the one at index [i] being
    the float [i * 100 * 400 / 1_000_000], strictly increasing with [i];
    under either promotion rule of NumPy. *)
Theorem end_to_end_scenario (p : promotion) (mask_data : list ndarray) :
  len mask_data = 16 ->
  (forall i image, nth_error mask_data i = Some image ->
     5 <= Z.of_nat (bands image)
     /\ is_mask image = true
     /\ count_value 1 image = Z.of_nat i * 100) ->
  (exists slots,
     partition (mk_datetime 2022 9 1) (mk_datetime 2023 4 30) 17 = Ok slots
     /\ len slots = 16)
  /\ exists areas,
       area_covered_ice p mask_data = Ok areas
       /\ len areas = 16
       /\ (forall i a, nth_error areas i = Some a ->
             a = km2_of_pixels (Z.of_nat i * 100))
       /\ (forall i j a b, (i < j)%nat ->
             nth_error areas i = Some a -> nth_error areas j = Some b ->
             PrimFloat.ltb a b = true).
Proof.
  intros Hlen Himg. split.
  - eexists. split; [vm_compute; reflexivity|reflexivity].
  - assert (Hl : List.length mask_data = 16%nat) by (unfold len in Hlen; lia).
    assert (Hnth : forall i a,
               nth_error (map (fun i => km2_of_pixels (Z.of_nat i * 100))
                              (seq 0 (List.length mask_data))) i = Some a ->
               (i < 16)%nat /\ a = km2_of_pixels (Z.of_nat i * 100)).
    { intros i a H. rewrite nth_error_map, nth_error_seq, Hl in H.
      destruct (Nat.ltb_spec i 16); [|discriminate].
      simpl in H. injection H as <-. auto. }
    exists (map (fun i => km2_of_pixels (Z.of_nat i * 100))
                (seq 0 (List.length mask_data))).
    split; [|split; [|split]].
    + unfold area_covered_ice. apply (mapM_indexed (ice_area p) _ mask_data 0).
      intros i image H. destruct (Himg i image H) as [Hb [Hm Hc]].
      assert (i < 16)%nat.
      { rewrite <- Hl. apply nth_error_Some. congruence. }
      rewrite ice_area_of_mask by (assumption || (rewrite Hc; lia)).
      rewrite Hc. now rewrite area_of_count_scenario.
    + unfold len. rewrite length_map, length_seq. lia.
    + intros i a H. now apply Hnth in H.
    + intros i j a b Hij Ha Hb.
      apply Hnth in Ha, Hb. destruct Ha as [_ ->], Hb as [Hj ->].
      now apply km2_increasing.
Qed.

(** The scenario on the 16 synthetic masks of 40 by 40 pixels. *)
Lemma end_to_end_scenario_witness :
  (exists slots,
     partition (mk_datetime 2022 9 1) (mk_datetime 2023 4 30) 17 = Ok slots
     /\ len slots = 16)
  /\ exists areas,
       area_covered_ice Legacy (map (fun i => synthetic (i * 100)) (range 16))
       = Ok areas
       /\ len areas = 16
       /\ (forall i a, nth_error areas i = Some a ->
             a = km2_of_pixels (Z.of_nat i * 100))
       /\ (forall i j a b, (i < j)%nat ->
             nth_error areas i = Some a -> nth_error areas j = Some b ->
             PrimFloat.ltb a b = true).
Proof.
  apply (end_to_end_scenario Legacy (map (fun i => synthetic (i * 100)) (range 16))).
  - reflexivity.
  - intros i image H.
    do 16 (destruct i as [|i]; [injection H as <-; by_evaluation|]).
    destruct i; discriminate.
Defined.

(** C7, counterexample: a well-formed [uint8] raster of one pixel whose
    band 4 holds 2.  No pixel equals the sentinel 1, so the claimed area is
    that of 0 pixels; the code returns the area of 2 pixels, because
    [np.sum] adds the values of the band. *)
Lemma ice_area_sums_band_values :
  wf two_in_band_4 = true
  /\ count_value 1 two_in_band_4 = 0
  /\ count_ice_pixels two_in_band_4 = Ok 2
  /\ ice_area Legacy two_in_band_4 = Ok (km2_of_pixels 2)
  /\ ice_area Nep50 two_in_band_4 = Ok (km2_of_pixels 2)
  /\ PrimFloat.eqb (km2_of_pixels 2) (km2_of_pixels 0) = false.
Proof. by_evaluation. Qed.

(** C7, amended: for every raster of at least 5 bands whose band 4 holds
    only the values 0 and 1, as the [iceMask] band of the mask request does,
    the reduction counts the pixels of band 4 equal to the sentinel 1 (the
    count fitting [uint64]) and returns that count multiplied by 20 x 20 and
    divided by 1_000_000, in NumPy's scalar arithmetic; the pixels equal to 0
    contribute nothing.  Under NEP 50, with a product that fits [uint64],
    this is the float of [count * 400 / 1_000_000]. *)
Theorem ice_area_counts_mask_pixels (p : promotion) (image : ndarray) :
  5 <= Z.of_nat (bands image) ->
  is_mask image = true ->
  count_value 1 image < 2 ^ 64 ->
  count_ice_pixels image = Ok (count_value 1 image)
  /\ ice_area p image
     = Ok (true_divide (scalar_mul p (count_value 1 image) (20 * 20)) 1000000)
  /\ (count_value 1 image * 400 < 2 ^ 64 ->
      ice_area Nep50 image = Ok (km2_of_pixels (count_value 1 image))).
Proof.
  intros Hb Hm Hfit. split; [|split].
  - rewrite count_ice_pixels_eq.
    destruct (Z.leb_spec 5 (Z.of_nat (bands image))); [|lia].
    unfold is_mask in Hm. rewrite (zsum_mask _ Hm). fold (count_value 1 image).
    pose proof (count_value_nonneg 1 image). now rewrite Z.mod_small by lia.
  - now rewrite ice_area_of_mask.
  - intros Hprod. rewrite ice_area_of_mask by assumption.
    rewrite area_of_count_nep50; [reflexivity|apply count_value_nonneg|assumption].
Qed.

(** A synthetic mask with 300 pixels marked. *)
Lemma ice_area_counts_mask_pixels_witness :
  wf (synthetic 300) = true
  /\ count_value 1 (synthetic 300) = 300
  /\ count_ice_pixels (synthetic 300) = Ok (count_value 1 (synthetic 300))
  /\ ice_area Legacy (synthetic 300)
     = Ok (true_divide
             (scalar_mul Legacy (count_value 1 (synthetic 300)) (20 * 20)) 1000000)
  /\ (count_value 1 (synthetic 300) * 400 < 2 ^ 64 ->
      ice_area Nep50 (synthetic 300)
      = Ok (km2_of_pixels (count_value 1 (synthetic 300)))).
Proof.
  split; [by_evaluation|]. split; [by_evaluation|].
  apply (ice_area_counts_mask_pixels Legacy (synthetic 300)); by_evaluation.
Defined.

(** C10: [count_ice_pixels] succeeds exactly on rasters of at least 5
    bands, raises IndexError on every raster of fewer than 5 bands, and its
    result depends on band 4 alone: two rasters with the same number of
    bands and the same values in band 4 give the same result, whatever
    their other bands hold. *)
Theorem count_ice_pixels_reads_band_4 (image : ndarray) :
  (5 <= Z.of_nat (bands image) <-> exists c, count_ice_pixels image = Ok c)
  /\ (Z.of_nat (bands image) < 5 <-> count_ice_pixels image = Raise IndexError)
  /\ (forall image',
        bands image' = bands image ->
        band_values image' 4 = band_values image 4 ->
        count_ice_pixels image' = count_ice_pixels image).
Proof.
  split; [|split].
  - rewrite count_ice_pixels_eq.
    destruct (Z.leb_spec 5 (Z.of_nat (bands image))) as [H|H]; split.
    + eauto.
    + intros _. exact H.
    + lia.
    + intros [c Hc]. discriminate.
  - rewrite count_ice_pixels_eq.
    destruct (Z.leb_spec 5 (Z.of_nat (bands image))) as [H|H]; split.
    + lia.
    + discriminate.
    + reflexivity.
    + intros _. exact H.
  - intros image' Hb Hv. now rewrite !count_ice_pixels_eq, Hb, Hv.
Qed.

(** Two rasters that agree on band 4 alone give the same count, and a raster
    of 4 bands is refused. *)
Lemma count_ice_pixels_reads_band_4_witness :
  count_ice_pixels dark_pixel = count_ice_pixels ice_pixel
  /\ count_ice_pixels ice_pixel = Ok 1
  /\ count_ice_pixels four_band_pixel = Raise IndexError.
Proof.
  split; [|split].
  - apply (proj2 (proj2 (count_ice_pixels_reads_band_4 ice_pixel))); reflexivity.
  - reflexivity.
  - apply (proj1 (proj1 (proj2 (count_ice_pixels_reads_band_4 four_band_pixel)))).
    reflexivity.
Defined.

(** ** The parallel download executor *)

Import Executor.

Section ExecutorFacts.

Local Open Scope nat_scope.

Context {Req Res : Type}.
Variables (fetch : Req -> Res) (max_workers : nat) (requests : list Req).

Lemma store_length {A : Type} (i : nat) (v : A) (l : list A) :
  List.length (store i v l) = List.length l.
Proof.
  revert i. induction l as [|x l IH]; intros [|i]; simpl; auto.
Qed.

Lemma store_same {A : Type} (i : nat) (v : A) (l : list A) :
  i < List.length l -> nth_error (store i v l) i = Some v.
Proof.
  revert i. induction l as [|x l IH]; intros [|i] H; simpl in *; try lia; auto.
  apply IH. lia.
Qed.

Lemma store_other {A : Type} (i j : nat) (v : A) (l : list A) :
  i <> j -> nth_error (store i v l) j = nth_error l j.
Proof.
  revert i j. induction l as [|x l IH]; intros [|i] [|j] H; simpl; auto.
  contradiction.
Qed.

(** What every reachable pool satisfies: the container keeps its size, and a
    request that was pulled and is no longer in flight has its own result in
    its own slot. *)
Definition settled (p : pool Res) : Prop :=
  List.length (results p) = List.length requests
  /\ next p <= List.length requests
  /\ forall i req,
       nth_error requests i = Some req -> i < next p -> ~ In i (in_flight p) ->
       nth_error (results p) i = Some (Some (fetch req)).

Lemma settled_init : settled (init requests).
Proof.
  unfold settled, init. cbn. rewrite repeat_length.
  split; [reflexivity|]. split; [lia|]. intros i req _ H. lia.
Qed.

Lemma settled_step (p q : pool Res) :
  settled p -> step fetch max_workers requests p q -> settled q.
Proof.
  intros [Hlen [Hnext Hres]] Hstep. destruct Hstep as [p Hw Hn|p i req Hin Hreq].
  - unfold settled. cbn. split; [assumption|]. split; [lia|].
    intros i req Hreq Hi Hnot.
    assert (Hne : i <> next p) by (intros ->; apply Hnot; now left).
    apply Hres; [assumption|lia|]. intros Hc. apply Hnot. now right.
  - unfold settled. cbn. rewrite store_length.
    split; [assumption|]. split; [assumption|].
    intros j req' Hreq' Hj Hnot.
    destruct (Nat.eq_dec i j) as [->|Hne].
    + assert (req' = req) by congruence. subst req'.
      apply store_same. rewrite Hlen. apply nth_error_Some. congruence.
    + rewrite store_other by assumption. apply Hres; try assumption.
      intros Hc. apply Hnot. apply in_in_remove; auto.
Qed.

Lemma settled_runs (p q : pool Res) :
  settled p -> runs fetch max_workers requests p q -> settled q.
Proof.
  intros Hp Hr. induction Hr; eauto using settled_step.
Qed.

Lemma collect_all {A : Type} (l : list (option A)) (xs : list A) :
  List.length l = List.length xs ->
  (forall i x, nth_error xs i = Some x -> nth_error l i = Some (Some x)) ->
  collect l = Some xs.
Proof.
  revert xs. induction l as [|o l IH]; intros [|x xs] Hlen H; try discriminate.
  - reflexivity.
  - pose proof (H 0 x eq_refl) as H0. cbn in H0. injection H0 as ->.
    cbn. rewrite (IH xs); [reflexivity|cbn in Hlen; lia|].
    intros i y Hy. exact (H (S i) y Hy).
Qed.

Lemma settled_finished (p : pool Res) :
  settled p -> finished requests p -> output p = Some (map fetch requests).
Proof.
  intros [Hlen [_ Hres]] [Hnext Hfl]. unfold output.
  apply collect_all; [now rewrite length_map|].
  intros i x Hx. rewrite nth_error_map in Hx.
  destruct (nth_error requests i) as [req|] eqn:E; [|discriminate].
  injection Hx as <-. apply Hres; [assumption| |rewrite Hfl; intros []].
  rewrite Hnext. apply nth_error_Some. congruence.
Qed.

(** With one worker or more the pool can always finish: here, one request
    after the other. *)
Lemma runs_sequential (k : nat) :
  1 <= max_workers -> k <= List.length requests ->
  exists p, runs fetch max_workers requests (init requests) p
            /\ next p = k /\ in_flight p = [].
Proof.
  intros Hw. induction k as [|k IH]; intros Hk.
  - exists (init requests). split; [constructor|]. split; reflexivity.
  - destruct (IH ltac:(lia)) as [p [Hr [Hn Hf]]].
    destruct (nth_error requests k) as [req|] eqn:E;
      [|apply nth_error_None in E; lia].
    eexists. split.
    + eapply runs_step; [eapply runs_step; [exact Hr|]|].
      * apply step_pull; [rewrite Hf; cbn; lia|lia].
      * apply (step_finish _ _ _ _ k req); [cbn; left; exact Hn|exact E].
    + cbn. rewrite Hn, Hf. cbn. destruct (Nat.eq_dec k k); [|contradiction].
      split; reflexivity.
Qed.

End ExecutorFacts.

Section ExecutorOrder.

Local Open Scope nat_scope.

(** C8: for every sequence of requests and every number of workers, in
    every execution of the pool that finishes, whatever the order in which
    the workers complete, the sequence returned has one result per request
    and the result at position [i] is the download of the request at
    position [i]; and with one worker or more the pool does finish.  (The
    executor is the specification's; [fetch] is a download that succeeds.) *)
Theorem download_all_preserves_order
  {Req Res : Type} (fetch : Req -> Res) (max_workers : nat) (requests : list Req) :
  (1 <= max_workers ->
   exists p, runs fetch max_workers requests (init requests) p
             /\ finished requests p)
  /\ (forall p,
        runs fetch max_workers requests (init requests) p ->
        finished requests p ->
        exists out,
          output p = Some out
          /\ List.length out = List.length requests
          /\ forall i req, nth_error requests i = Some req ->
               nth_error out i = Some (fetch req)).
Proof.
  split.
  - intros Hw.
    destruct (runs_sequential fetch max_workers requests (List.length requests) Hw
                ltac:(lia)) as [p [Hr [Hn Hf]]].
    exists p. split; [exact Hr|split; assumption].
  - intros p Hr Hfin.
    pose proof (settled_runs fetch max_workers requests _ _
                  (settled_init fetch requests) Hr) as Hs.
    exists (map fetch requests).
    split; [now apply (settled_finished fetch requests)|].
    split; [apply length_map|].
    intros i req H. now rewrite nth_error_map, H.
Qed.

(* Extends the run [R] by the pull of the next request, or by the end of
   the download in flight at position [i]. *)
Ltac pull R :=
  match type of R with
  | runs ?f ?w ?rs ?p0 ?q =>
      let P := fresh in
      assert (P : step f w rs q _) by (apply step_pull; cbn; lia);
      apply (runs_step f w rs p0 q _ R) in P; cbn in P; clear R; rename P into R
  end.

Ltac finish R i :=
  match type of R with
  | runs ?f ?w ?rs ?p0 ?q =>
      let P := fresh in
      assert (P : step f w rs q _)
        by (eapply (step_finish f w rs q i); cbn; [tauto|reflexivity]);
      apply (runs_step f w rs p0 q _ R) in P; cbn in P; clear R; rename P into R
  end.

Lemma out_of_order_runs :
  runs S 2 [10; 20; 30] (init [10; 20; 30]) out_of_order.
Proof.
  pose proof (runs_refl S 2 [10; 20; 30] (init [10; 20; 30])) as R.
  pull R. pull R. finish R 1. pull R. finish R 2. finish R 0. exact R.
Qed.

Lemma download_all_preserves_order_witness :
  exists out,
    output out_of_order = Some out
    /\ List.length out = 3
    /\ forall i req, nth_error [10; 20; 30] i = Some req ->
         nth_error out i = Some (S req).
Proof.
  apply (proj2 (download_all_preserves_order S 2 [10; 20; 30]) out_of_order).
  - exact out_of_order_runs.
  - split; reflexivity.
Defined.

End ExecutorOrder.

(** * Further properties of the notebooks *)

(** ** The mask evalscript *)

Section EvalscriptFacts.

Variable Math_log : float -> float.

Lemma math_max_0_cases (x : float) :
  math_max 0 x = nan \/ math_max 0 x = 0%float
  \/ (math_max 0 x = x /\ (0 <? x)%float = true).
Proof.
  unfold math_max. change (is_nan 0) with false. cbn [orb].
  destruct (is_nan x); [now left|].
  destruct (0 <? x)%float eqn:E; [right; right; auto|].
  destruct (x <? 0)%float; [right; left; reflexivity|].
  change (get_sign 0) with false. cbv iota. right; left; reflexivity.
Qed.

(** A number above zero is above every negative number and not below
    zero. *)
Lemma above_zero (c x : float) :
  SFltb (Prim2SF c) (S754_zero false) = true ->
  (0 <? x)%float = true ->
  (c <? x)%float = true /\ (x <? 0)%float = false /\ (0 <=? x)%float = true.
Proof.
  rewrite !ltb_spec, leb_spec. change (Prim2SF 0) with (S754_zero false).
  intros Hc.
  destruct (Prim2SF c) as [s|s| |s m e]; try discriminate;
    destruct (Prim2SF x) as [s'|s'| |s' m' e']; try discriminate;
    try (destruct s; try discriminate); try (destruct s'; try discriminate);
    intros _; repeat split; reflexivity.
Qed.

Lemma toDb_cases (linear : float) :
  toDb Math_log linear = nan \/ toDb Math_log linear = 0%float
  \/ (0 <? toDb Math_log linear)%float = true.
Proof.
  unfold toDb. cbv zeta.
  destruct (math_max_0_cases ((10 * Math_log linear / LN10 + 20) / 30)%float)
    as [H|[H|[H H']]]; rewrite H; auto.
Qed.

Lemma lower_threshold_dead (linear : float) :
  ((-0.001 <? toDb Math_log linear) && (toDb Math_log linear <? 0.2))%float
  = (toDb Math_log linear <? 0.2)%float.
Proof.
  destruct (toDb_cases linear) as [H|[H|H]].
  - rewrite H. reflexivity.
  - rewrite H. reflexivity.
  - destruct (above_zero (-0.001) _ eq_refl H) as [-> _]. reflexivity.
Qed.

Lemma evaluatePixel_classes_eq (VV : float) (dataMask : Z) :
  evaluatePixel Math_log VV dataMask
  = if (toDb Math_log VV <? 0.2)%float then blue ++ [dataMask; 0]
    else if ((0.2 <? toDb Math_log VV) && (toDb Math_log VV <? 1))%float
         then cyan ++ [dataMask; 1]
         else black ++ [dataMask; 0].
Proof.
  unfold evaluatePixel. cbv zeta. rewrite lower_threshold_dead. reflexivity.
Qed.

End EvalscriptFacts.

(** X1: whatever [Math.log] returns, [toDb] never returns a negative
    number: its result is NaN or at least 0. *)
Theorem toDb_never_negative (Math_log : float -> float) (linear : float) :
  (toDb Math_log linear <? 0)%float = false
  /\ (is_nan (toDb Math_log linear) = true
      \/ (0 <=? toDb Math_log linear)%float = true).
Proof.
  destruct (toDb_cases Math_log linear) as [H|[H|H]].
  - rewrite H. split; [reflexivity|left; reflexivity].
  - rewrite H. split; [reflexivity|right; reflexivity].
  - destruct (above_zero (-0.001) _ eq_refl H) as [_ [H1 H2]]. auto.
Qed.

(** X2: the classes of [evaluatePixel].  A pixel is water (blue, mask 0)
    exactly when [toDb(VV) < 0.2], the test against -0.001 never deciding
    anything; it is ice (cyan, mask 1) exactly when [0.2 < toDb(VV) < 1];
    every other pixel, [toDb(VV)] equal to 0.2, at least 1 or NaN, is black
    with mask 0. *)
Theorem evaluatePixel_classes (Math_log : float -> float) (VV : float) (dataMask : Z) :
  evaluatePixel Math_log VV dataMask
  = if (toDb Math_log VV <? 0.2)%float then blue ++ [dataMask; 0]
    else if ((0.2 <? toDb Math_log VV) && (toDb Math_log VV <? 1))%float
         then cyan ++ [dataMask; 1]
         else black ++ [dataMask; 0].
Proof. apply evaluatePixel_classes_eq. Qed.

Section EvalscriptRaster.

Variable Math_log : float -> float.

Lemma evalscript_pixel (px : list Z) :
  (exists VV dm, px = evaluatePixel Math_log VV dm) ->
  exists dm, px = blue ++ [dm; 0] \/ px = cyan ++ [dm; 1] \/ px = black ++ [dm; 0].
Proof.
  intros [VV [dm ->]]. exists dm. rewrite evaluatePixel_classes_eq.
  destruct (_ <? _)%float; [auto|]. destruct (_ && _); auto.
Qed.

Lemma evalscript_band_4 (l : list (list Z)) :
  (forall px, In px l -> exists VV dm, px = evaluatePixel Math_log VV dm) ->
  forallb (fun v => (v =? 0) || (v =? 1)) (map (fun px => nth 4 px 0) l) = true
  /\ List.length (filter (Z.eqb 1) (map (fun px => nth 4 px 0) l))
     = List.length (filter (fun px => list_eqb (firstn 3 px) cyan) l).
Proof.
  induction l as [|px l IH]; intros H; [split; reflexivity|].
  destruct IH as [IH1 IH2]; [intros; apply H; now right|].
  destruct (evalscript_pixel px (H px (or_introl eq_refl))) as [dm [ -> | [ -> | -> ] ] ];
    cbn [map forallb filter]; split;
    try (cbn; rewrite ?IH1, ?IH2; reflexivity).
Qed.

Lemma evalscript_mask_count (image : ndarray) :
  (forall row px, In row (data image) -> In px row ->
     exists VV dm, px = evaluatePixel Math_log VV dm) ->
  is_mask image = true /\ count_value 1 image = cyan_pixels image.
Proof.
  unfold is_mask, count_value, cyan_pixels, band_values.
  induction (data image) as [|row rows IH]; intros H; [split; reflexivity|].
  destruct IH as [IH1 IH2]; [intros r px Hr; apply H; now right|].
  destruct (evalscript_band_4 row (fun px => H row px (or_introl eq_refl)))
    as [H1 H2].
  cbn [map List.concat]. rewrite forallb_app, !filter_app, !length_app.
  split; [now rewrite H1, IH1|]. lia.
Qed.

End EvalscriptRaster.

(** X3: the evalscript and the reduction agree.  On a raster of at least 5
    bands whose pixels are all values of [evaluatePixel], band 4 is a mask,
    [count_ice_pixels] returns the number of cyan pixels, the ones with
    [0.2 < toDb(VV) < 1], and the loop body returns their area (the count
    fitting [uint64]). *)
Theorem evalscript_raster_counts_ice
  (Math_log : float -> float) (p : promotion) (image : ndarray) :
  5 <= Z.of_nat (bands image) ->
  (forall row px, In row (data image) -> In px row ->
     exists VV dm, px = evaluatePixel Math_log VV dm) ->
  cyan_pixels image < 2 ^ 64 ->
  is_mask image = true
  /\ count_ice_pixels image = Ok (cyan_pixels image)
  /\ ice_area p image = Ok (area_of_count p (cyan_pixels image)).
Proof.
  intros Hb Hpx Hfit.
  destruct (evalscript_mask_count Math_log image Hpx) as [Hm Hc].
  split; [exact Hm|]. rewrite <- Hc in *. split.
  - rewrite count_ice_pixels_eq.
    destruct (Z.leb_spec 5 (Z.of_nat (bands image))); [|lia].
    unfold is_mask in Hm. rewrite (zsum_mask _ Hm). fold (count_value 1 image).
    pose proof (count_value_nonneg 1 image). now rewrite Z.mod_small by lia.
  - now apply ice_area_of_mask.
Qed.

(** A row with an ice pixel, a water pixel and a black pixel: one pixel is
    counted. *)
Lemma evalscript_raster_counts_ice_witness :
  data evalscript_row = [[cyan ++ [1; 1]; blue ++ [1; 0]; black ++ [1; 0]]]
  /\ is_mask evalscript_row = true
  /\ count_ice_pixels evalscript_row = Ok 1
  /\ ice_area Nep50 evalscript_row = Ok (area_of_count Nep50 1).
Proof.
  split; [vm_compute; reflexivity|].
  apply (evalscript_raster_counts_ice log_stub Nep50 evalscript_row).
  - by_evaluation.
  - intros row px [<-|[]] Hpx. cbn [data evalscript_row] in Hpx.
    destruct Hpx as [<-|[<-|[<-|[]]]]; eauto.
  - by_evaluation.
Defined.

(** ** The grid of axes *)

Lemma getitem_range_map {A : Type} (f : Z -> A) (n i : Z) :
  0 <= i ->
  getitem (map f (range n)) i = if i <? n then Ok (f i) else Raise IndexError.
Proof.
  intros Hi. unfold getitem.
  destruct (Z.ltb_spec i 0); [lia|].
  destruct (Z.leb_spec 0 i); [|lia]. cbn [andb].
  unfold len. rewrite length_map. fold (len (range n)). rewrite range_length.
  destruct (Z.ltb_spec i n); destruct (Z.ltb_spec i (Z.max 0 n)); try lia;
    [|reflexivity].
  unfold range. rewrite map_map, nth_error_map, nth_error_seq.
  destruct (Nat.ltb_spec (Z.to_nat i) (Z.to_nat n)); [|lia].
  cbn. f_equal. f_equal. lia.
Qed.

Lemma axes_at_subplots (nrows ncols idx : Z) :
  1 <= ncols -> 0 <= idx ->
  axes_at (subplots nrows ncols) ncols idx
  = if idx <? nrows * ncols then Ok (idx / ncols, idx mod ncols)
    else Raise IndexError.
Proof.
  intros Hc Hi. unfold axes_at, floordiv, pymod, subplots.
  destruct (Z.eqb_spec ncols 0); [lia|]. cbn [bind].
  pose proof (Z.div_mod idx ncols ltac:(lia)).
  pose proof (Z.mod_pos_bound idx ncols ltac:(lia)).
  assert (0 <= idx / ncols) by (apply Z.div_pos; lia).
  rewrite (getitem_range_map _ nrows) by assumption.
  destruct (Z.ltb_spec (idx / ncols) nrows);
    destruct (Z.ltb_spec idx (nrows * ncols)); try nia; cbn [bind]; [|reflexivity].
  rewrite (getitem_range_map _ ncols) by lia.
  destruct (Z.ltb_spec (idx mod ncols) ncols); [reflexivity|lia].
Qed.

(** X4: the axes of image [idx].  On a grid of [nrows] by [ncols] axes
    (two rows and two columns at least, so that the array of axes has two
    dimensions),
    [axs[idx // ncols][idx % ncols]] is the axes of row [idx // ncols] and
    column [idx % ncols] for every index below [nrows * ncols], and raises
    IndexError from index [nrows * ncols] on: the grid takes at most
    [nrows * ncols] images. *)
Theorem axes_at_bounds (nrows ncols idx : Z) :
  2 <= nrows -> 2 <= ncols -> 0 <= idx ->
  (idx < nrows * ncols ->
   axes_at (subplots nrows ncols) ncols idx = Ok (idx / ncols, idx mod ncols)
   /\ 0 <= idx / ncols < nrows /\ 0 <= idx mod ncols < ncols)
  /\ (nrows * ncols <= idx ->
      axes_at (subplots nrows ncols) ncols idx = Raise IndexError).
Proof.
  intros Hr Hc Hi. rewrite axes_at_subplots by lia.
  pose proof (Z.div_mod idx ncols ltac:(lia)).
  pose proof (Z.mod_pos_bound idx ncols ltac:(lia)).
  assert (0 <= idx / ncols) by (apply Z.div_pos; lia).
  destruct (Z.ltb_spec idx (nrows * ncols)); split; intros; try lia;
    repeat split; try lia; try reflexivity. nia.
Qed.

(** The 4 by 4 grid of ice_monitoring.ipynb: image 15 is the last one it
    takes. *)
Lemma axes_at_bounds_witness :
  axes_at (subplots 4 4) 4 15 = Ok (3, 3)
  /\ axes_at (subplots 4 4) 4 16 = Raise IndexError.
Proof.
  split.
  - apply (axes_at_bounds 4 4 15); by_evaluation.
  - apply (axes_at_bounds 4 4 16); by_evaluation.
Defined.

(** X5: the placement is one-to-one and onto.  Two images below
    [nrows * ncols] never share an axes, and every axes of the grid receives
    the image of index [r * ncols + c], so the grid is filled row by row. *)
Theorem axes_at_bijection (nrows ncols : Z) :
  2 <= nrows -> 2 <= ncols ->
  (forall idx idx' ax,
     0 <= idx < nrows * ncols -> 0 <= idx' < nrows * ncols ->
     axes_at (subplots nrows ncols) ncols idx = Ok ax ->
     axes_at (subplots nrows ncols) ncols idx' = Ok ax -> idx = idx')
  /\ (forall r c, 0 <= r < nrows -> 0 <= c < ncols ->
        axes_at (subplots nrows ncols) ncols (r * ncols + c) = Ok (r, c)).
Proof.
  intros Hrows Hc. split.
  - intros idx idx' ax Hi Hi' H H'.
    rewrite axes_at_subplots in H, H' by lia.
    destruct (Z.ltb_spec idx (nrows * ncols)); [|lia].
    destruct (Z.ltb_spec idx' (nrows * ncols)); [|lia].
    injection H as <-. injection H' as Hq Hr.
    pose proof (Z.div_mod idx ncols ltac:(lia)).
    pose proof (Z.div_mod idx' ncols ltac:(lia)). congruence.
  - intros r c Hr Hcol. rewrite axes_at_subplots by nia.
    destruct (Z.ltb_spec (r * ncols + c) (nrows * ncols)); [|nia].
    rewrite (Z.add_comm (r * ncols) c), Z.div_add, Z.mod_add by lia.
    rewrite Z.div_small, Z.mod_small by lia. reflexivity.
Qed.

(** The 3 by 4 grid of the multiple-timestamps example. *)
Lemma axes_at_bijection_witness :
  axes_at (subplots 3 4) 4 (2 * 4 + 3) = Ok (2, 3).
Proof.
  apply (proj2 (axes_at_bijection 3 4 ltac:(by_evaluation) ltac:(by_evaluation))
           2 3); by_evaluation.
Defined.

(** X6: the partition and the grid.  The loops draw one image per window;
    when the partition returns, every window index has an axes on a grid of
    [nrows] by [ncols] axes (two at least of each) exactly when
    [n_chunks - 1 <= nrows * ncols]. *)
Theorem partition_fits_grid
  (start end_ : datetime) (n_chunks nrows ncols : Z) (slots : list TimeWindow) :
  valid_datetime start -> valid_datetime end_ -> 1 <= n_chunks ->
  2 <= nrows -> 2 <= ncols ->
  partition start end_ n_chunks = Ok slots ->
  (forall idx, 0 <= idx < len slots ->
     exists ax, axes_at (subplots nrows ncols) ncols idx = Ok ax)
  <-> n_chunks - 1 <= nrows * ncols.
Proof.
  intros Hs He Hn Hr Hc H.
  assert (Hl : len slots = n_chunks - 1).
  { destruct (partition_cases start end_ n_chunks Hs He)
      as [[Hn' E]|[[Hn' E]|[[Hn' [Hv [sl [E Hsl]]]]|[Hn' [Hv E]]]]];
      try lia; congruence. }
  rewrite Hl. split.
  - intros Hall. destruct (Z_le_gt_dec (n_chunks - 1) (nrows * ncols)); [assumption|].
    assert (Hpos : 0 <= nrows * ncols) by nia.
    destruct (Hall (nrows * ncols) ltac:(lia)) as [ax Hax].
    rewrite axes_at_subplots in Hax by lia.
    destruct (Z.ltb_spec (nrows * ncols) (nrows * ncols)); [lia|discriminate].
  - intros Hfit idx Hidx. rewrite axes_at_subplots by lia.
    destruct (Z.ltb_spec idx (nrows * ncols)); [eauto|lia].
Qed.

(** 17 chunks on the 4 by 4 grid. *)
Lemma partition_fits_grid_witness :
  exists slots,
    partition (mk_datetime 2022 9 1) (mk_datetime 2023 4 30) 17 = Ok slots
    /\ ((forall idx, 0 <= idx < len slots ->
           exists ax, axes_at (subplots 4 4) 4 idx = Ok ax)
        <-> 17 - 1 <= 4 * 4).
Proof.
  eexists. split; [vm_compute; reflexivity|].
  apply (partition_fits_grid (mk_datetime 2022 9 1) (mk_datetime 2023 4 30) 17);
    by_evaluation.
Defined.

(** ** The array shown for a mask *)

Lemma wf_pixels (a : ndarray) :
  wf a = true ->
  List.length (data a) = height a
  /\ forall row, In row (data a) ->
       List.length row = width a
       /\ forall px, In px row ->
            List.length px = bands a /\ forall v, In v px -> 0 <= v <= 255.
Proof.
  unfold wf. intros H. apply andb_true_iff in H. destruct H as [Hh Hrows].
  apply Nat.eqb_eq in Hh. split; [assumption|].
  rewrite forallb_forall in Hrows. intros row Hrow.
  specialize (Hrows row Hrow). apply andb_true_iff in Hrows.
  destruct Hrows as [Hw Hpx]. apply Nat.eqb_eq in Hw. split; [assumption|].
  rewrite forallb_forall in Hpx. intros px Hin.
  specialize (Hpx px Hin). apply andb_true_iff in Hpx.
  destruct Hpx as [Hb Hv]. apply Nat.eqb_eq in Hb. split; [assumption|].
  rewrite forallb_forall in Hv. intros v Hvin. specialize (Hv v Hvin).
  unfold uint8 in Hv. lia.
Qed.

Lemma firstn_In {A : Type} (n : nat) (l : list A) (x : A) :
  In x (firstn n l) -> In x l.
Proof.
  intros H. rewrite <- (firstn_skipn n l). apply in_or_app. now left.
Qed.

Lemma map_id_in {A : Type} (f : A -> A) (l : list A) :
  (forall x, In x l -> f x = x) -> map f l = l.
Proof.
  intros H. rewrite <- (map_id l) at 2. now apply map_ext_in.
Qed.

(** X7: on a well-formed [uint8] raster the display of the mask never
    fails and [np.clip(..., 0, 255)] changes nothing: the array shown is
    the slice of the first three bands (all the bands when there are fewer
    than three), itself a well-formed raster. *)
Theorem mask_shown_is_slice (image : ndarray) :
  wf image = true ->
  mask_shown image = slice_upto image 3
  /\ bands (mask_shown image) = Nat.min 3 (bands image)
  /\ wf (mask_shown image) = true.
Proof.
  intros Hwf. destruct (wf_pixels image Hwf) as [Hh Hrows].
  assert (E : mask_shown image = slice_upto image 3).
  { unfold mask_shown, np_clip, slice_upto. cbn [height width bands data].
    f_equal. rewrite map_map. apply map_ext_in. intros row Hrow.
    rewrite map_map. apply map_ext_in. intros px Hpx.
    apply map_id_in. intros v Hv. apply firstn_In in Hv.
    destruct (Hrows row Hrow) as [_ Hp]. destruct (Hp px Hpx) as [_ Hu].
    specialize (Hu v Hv). lia. }
  rewrite E. split; [reflexivity|]. split; [reflexivity|].
  unfold wf, slice_upto. cbn [height width bands data].
  rewrite length_map, Hh, Nat.eqb_refl. cbn [andb].
  apply forallb_forall. intros row' Hrow'. apply in_map_iff in Hrow'.
  destruct Hrow' as [row [<- Hrow]]. destruct (Hrows row Hrow) as [Hw Hp].
  rewrite length_map, Hw, Nat.eqb_refl. cbn [andb].
  apply forallb_forall. intros px' Hpx'. apply in_map_iff in Hpx'.
  destruct Hpx' as [px [<- Hpx]]. destruct (Hp px Hpx) as [Hb Hu].
  rewrite length_firstn, Hb, Nat.eqb_refl. cbn [andb].
  apply forallb_forall. intros v Hv. apply firstn_In in Hv.
  specialize (Hu v Hv). unfold uint8. lia.
Qed.

(** The row of evalscript pixels shows cyan, blue and black. *)
Lemma mask_shown_is_slice_witness :
  data (mask_shown evalscript_row) = [[cyan; blue; black]]
  /\ mask_shown evalscript_row = slice_upto evalscript_row 3.
Proof.
  split; [vm_compute; reflexivity|].
  apply (mask_shown_is_slice evalscript_row). by_evaluation.
Defined.

(** ** The loop over the masks *)

Lemma ice_area_eq (p : promotion) (image : ndarray) :
  ice_area p image
  = if 5 <=? Z.of_nat (bands image)
    then Ok (area_of_count p (band_sum image mod 2 ^ 64))
    else Raise IndexError.
Proof.
  unfold ice_area. rewrite count_ice_pixels_eq.
  destruct (5 <=? Z.of_nat (bands image)); reflexivity.
Qed.

(** X8: the outcomes of the loop that fills [area_covered_ice].  When every
    raster has at least 5 bands the loop yields one area per raster, in the
    order of the rasters, each computed from band 4 of its own raster; as
    soon as one raster has fewer than 5 bands the loop stops with
    IndexError, and nothing else can make it fail. *)
Theorem area_covered_ice_outcomes (p : promotion) (mask_data : list ndarray) :
  (Forall (fun image => 5 <= Z.of_nat (bands image)) mask_data ->
   exists areas,
     area_covered_ice p mask_data = Ok areas
     /\ len areas = len mask_data
     /\ forall i image, nth_error mask_data i = Some image ->
          nth_error areas i = Some (area_of_count p (band_sum image mod 2 ^ 64)))
  /\ (Exists (fun image => Z.of_nat (bands image) < 5) mask_data ->
      area_covered_ice p mask_data = Raise IndexError)
  /\ (forall e, area_covered_ice p mask_data = Raise e -> e = IndexError).
Proof.
  unfold area_covered_ice. split; [|split].
  - intros Hall. rewrite Forall_forall in Hall.
    exists (map (fun image => area_of_count p (band_sum image mod 2 ^ 64)) mask_data).
    split; [|split].
    + apply mapM_ok. intros image Hin. rewrite ice_area_eq.
      destruct (Z.leb_spec 5 (Z.of_nat (bands image))); [reflexivity|].
      specialize (Hall image Hin). lia.
    + unfold len. now rewrite length_map.
    + intros i image H. rewrite nth_error_map, H. reflexivity.
  - intros Hex. apply Exists_exists in Hex. destruct Hex as [image [Hin Hb]].
    assert (Hr : ice_area p image = Raise IndexError).
    { rewrite ice_area_eq.
      destruct (Z.leb_spec 5 (Z.of_nat (bands image))); [lia|reflexivity]. }
    destruct (mapM_raise_at (ice_area p) mask_data image IndexError Hin Hr)
      as [e' He'].
    rewrite He'. f_equal. apply mapM_raise in He'.
    destruct He' as [x [_ Hx]]. rewrite ice_area_eq in Hx.
    destruct (5 <=? Z.of_nat (bands x)); congruence.
  - intros e He. apply mapM_raise in He. destruct He as [x [_ Hx]].
    rewrite ice_area_eq in Hx. destruct (5 <=? Z.of_nat (bands x)); congruence.
Qed.

(** A raster of the SAR request among the masks stops the loop. *)
Lemma area_covered_ice_outcomes_witness :
  area_covered_ice Legacy [synthetic 100; sar_pixel; synthetic 200]
  = Raise IndexError.
Proof.
  apply (proj1 (proj2 (area_covered_ice_outcomes Legacy
                         [synthetic 100; sar_pixel; synthetic 200]))).
  apply Exists_cons_tl, Exists_cons_hd. by_evaluation.
Defined.

Lemma zsum_bounds (l : list Z) (hi : Z) :
  (forall v, In v l -> 0 <= v <= hi) ->
  0 <= zsum l <= hi * Z.of_nat (List.length l).
Proof.
  induction l as [|v l IH]; intros H; [simpl; lia|].
  specialize (IH (fun x Hx => H x (or_intror Hx))).
  specialize (H v (or_introl eq_refl)).
  cbn [zsum fold_right List.length]. fold (zsum l). lia.
Qed.

Lemma band_values_wf (image : ndarray) (k : nat) :
  wf image = true -> (k < bands image)%nat ->
  List.length (band_values image k) = (height image * width image)%nat
  /\ forall v, In v (band_values image k) -> 0 <= v <= 255.
Proof.
  intros Hwf Hk. destruct (wf_pixels image Hwf) as [Hh Hrows].
  unfold band_values. rewrite <- Hh. clear Hh.
  induction (data image) as [|row rows IH]; [split; [reflexivity|intros v []]|].
  destruct IH as [IH1 IH2]; [intros r Hr; apply Hrows; now right|].
  destruct (Hrows row (or_introl eq_refl)) as [Hw Hp].
  cbn [map List.concat List.length]. rewrite length_app, length_map, IH1, Hw.
  split; [lia|].
  intros v Hv. apply in_app_or in Hv. destruct Hv as [Hv|Hv]; [|now apply IH2].
  apply in_map_iff in Hv. destruct Hv as [px [<- Hpx]].
  destruct (Hp px Hpx) as [Hb Hu]. apply Hu. apply nth_In. lia.
Qed.

(** X9: [np.sum] does not wrap on a real raster.  On a well-formed [uint8]
    raster of at least 5 bands and fewer than [2^64 / 255] pixels,
    [count_ice_pixels] returns the exact sum of band 4, between 0 and 255
    times the number of pixels; on a mask the count is at most the number of
    pixels. *)
Theorem count_ice_pixels_exact (image : ndarray) :
  wf image = true ->
  5 <= Z.of_nat (bands image) ->
  255 * Z.of_nat (height image * width image) < 2 ^ 64 ->
  count_ice_pixels image = Ok (band_sum image)
  /\ 0 <= band_sum image <= 255 * Z.of_nat (height image * width image)
  /\ (is_mask image = true ->
      band_sum image = count_value 1 image
      /\ band_sum image <= Z.of_nat (height image * width image)).
Proof.
  intros Hwf Hb Hsize.
  destruct (band_values_wf image 4 Hwf ltac:(lia)) as [Hlen Hu].
  pose proof (zsum_bounds _ 255 Hu) as Hsum. rewrite Hlen in Hsum.
  fold (band_sum image) in Hsum.
  split; [|split; [exact Hsum|]].
  - rewrite count_ice_pixels_eq.
    destruct (Z.leb_spec 5 (Z.of_nat (bands image))); [|lia].
    fold (band_sum image). now rewrite Z.mod_small by lia.
  - intros Hm. unfold is_mask in Hm. unfold band_sum.
    rewrite (zsum_mask _ Hm). fold (count_value 1 image).
    split; [reflexivity|]. unfold count_value.
    pose proof (filter_length_le (Z.eqb 1) (band_values image 4)). lia.
Qed.

(** The synthetic mask of 1600 pixels with 300 of them marked. *)
Lemma count_ice_pixels_exact_witness :
  band_sum (synthetic 300) = 300
  /\ count_ice_pixels (synthetic 300) = Ok (band_sum (synthetic 300))
  /\ 0 <= band_sum (synthetic 300)
     <= 255 * Z.of_nat (height (synthetic 300) * width (synthetic 300)).
Proof.
  split; [by_evaluation|].
  pose proof (count_ice_pixels_exact (synthetic 300)
                ltac:(by_evaluation) ltac:(by_evaluation) ltac:(by_evaluation))
    as [H1 [H2 _]].
  split; [exact H1|exact H2].
Defined.

(** ** More on the windows *)

Lemma range_map_nth_error {A : Type} (f : Z -> A) (n : Z) (k : nat) (x : A) :
  nth_error (map f (range n)) k = Some x ->
  Z.of_nat k < n /\ x = f (Z.of_nat k).
Proof.
  unfold range. rewrite map_map, nth_error_map, nth_error_seq.
  destruct (Nat.ltb_spec k (Z.to_nat n)); [|discriminate].
  cbn. intros [= <-]. split; [lia|reflexivity].
Qed.

Lemma in_adjacent_range {A : Type} (f : Z -> A) (n : Z) (w : A * A) :
  In w (adjacent (map f (range n))) ->
  exists i, 0 <= i /\ i + 1 < n /\ w = (f i, f (i + 1)).
Proof.
  intros H. apply In_nth_error in H. destruct H as [k Hk].
  destruct w as [a b]. apply adjacent_nth_error in Hk. destruct Hk as [Ha Hb].
  apply range_map_nth_error in Ha, Hb. destruct Ha as [_ ->], Hb as [Hlt ->].
  exists (Z.of_nat k). split; [lia|]. split; [lia|].
  do 2 f_equal. lia.
Qed.

Section DayWindows.

Variables (start end_ : datetime) (n_chunks : Z) (slots : list TimeWindow).
Hypothesis Hstart : valid_datetime start.
Hypothesis Hend : valid_datetime end_.
Hypothesis Horder : start < end_.
Hypothesis Hchunks : 1 <= n_chunks.
Hypothesis Hslots : partition start end_ n_chunks = Ok slots.

Lemma returned_last_edge : valid_datetime (last_edge start end_ n_chunks).
Proof. eauto using partition_ok_last_edge. Qed.

Lemma returned_slots : slots = map iso_window (day_windows start end_ n_chunks).
Proof.
  pose proof returned_last_edge as Hl.
  rewrite (forward_partition start end_ n_chunks) in Hslots by assumption.
  injection Hslots as <-. unfold day_windows, chunk, iso_window.
  rewrite <- (adjacent_map isoformat), map_map. reflexivity.
Qed.

Lemma day_window_edges (w : date * date) :
  In w (day_windows start end_ n_chunks) ->
  exists i, 0 <= i /\ i + 1 < n_chunks
            /\ valid_datetime (start + i * chunk start end_ n_chunks)
            /\ valid_datetime (start + (i + 1) * chunk start end_ n_chunks)
            /\ w = (edge_day start (chunk start end_ n_chunks) i,
                    edge_day start (chunk start end_ n_chunks) (i + 1)).
Proof.
  intros H. apply in_adjacent_range in H. destruct H as [i [H0 [H1 ->]]].
  pose proof returned_last_edge as Hl.
  exists i. repeat split; try lia;
    apply (edges_valid start end_ n_chunks Hstart); (assumption || lia).
Qed.

End DayWindows.

(** X10: the windows are evenly long.  In a returned partition every
    window runs from the day of one edge to the day of the next, and its
    length in days is the whole number of days in the chunk or one more. *)
Theorem partition_window_lengths
  (start end_ : datetime) (n_chunks : Z) (slots : list TimeWindow) :
  valid_datetime start -> valid_datetime end_ -> start < end_ -> 1 <= n_chunks ->
  partition start end_ n_chunks = Ok slots ->
  slots = map iso_window (day_windows start end_ n_chunks)
  /\ forall w, In w (day_windows start end_ n_chunks) ->
       chunk start end_ n_chunks / US_PER_DAY <= snd w - fst w
       <= chunk start end_ n_chunks / US_PER_DAY + 1.
Proof.
  intros Hs He Hlt Hn H. split; [eauto using returned_slots|].
  intros w Hw.
  destruct (day_window_edges start end_ n_chunks slots Hs He Hn H w Hw)
    as [i [H0 [H1 [_ [_ ->]]]]].
  cbn [fst snd]. unfold edge_day, dt_date, US_PER_DAY.
  replace (start + (i + 1) * chunk start end_ n_chunks)
    with (start + i * chunk start end_ n_chunks + chunk start end_ n_chunks) by lia.
  generalize (start + i * chunk start end_ n_chunks) (chunk start end_ n_chunks).
  intros a td. Z.div_mod_to_equations. lia.
Qed.

(** The 17 chunks of ice_monitoring.ipynb: every window is 14 or 15 days
    long. *)
Lemma partition_window_lengths_witness :
  chunk (mk_datetime 2022 9 1) (mk_datetime 2023 4 30) 17 / US_PER_DAY = 14
  /\ exists slots,
       partition (mk_datetime 2022 9 1) (mk_datetime 2023 4 30) 17 = Ok slots
       /\ Forall (fun w =>
                    chunk (mk_datetime 2022 9 1) (mk_datetime 2023 4 30) 17
                    / US_PER_DAY <= snd w - fst w
                    <= chunk (mk_datetime 2022 9 1) (mk_datetime 2023 4 30) 17
                       / US_PER_DAY + 1)
                 (day_windows (mk_datetime 2022 9 1) (mk_datetime 2023 4 30) 17).
Proof.
  split; [by_evaluation|].
  eexists. split; [vm_compute; reflexivity|].
  apply Forall_forall.
  refine (proj2 (partition_window_lengths
                   (mk_datetime 2022 9 1) (mk_datetime 2023 4 30) 17 _ _ _ _ _ _));
    by_evaluation.
Defined.

(** X11: no empty window when a chunk lasts a day or more.  In a returned
    partition whose rounded chunk [tdelta] is at least one day, every window
    starts strictly before it ends. *)
Theorem partition_no_empty_window
  (start end_ : datetime) (n_chunks : Z) (slots : list TimeWindow) :
  valid_datetime start -> valid_datetime end_ -> start < end_ -> 1 <= n_chunks ->
  US_PER_DAY <= chunk start end_ n_chunks ->
  partition start end_ n_chunks = Ok slots ->
  forall w, In w slots -> (fst w <? snd w)%string = true.
Proof.
  intros Hs He Hlt Hn Hday H w Hw.
  rewrite (returned_slots start end_ n_chunks slots Hs He Hn H) in Hw.
  apply in_map_iff in Hw. destruct Hw as [d [<- Hd]].
  destruct (day_window_edges start end_ n_chunks slots Hs He Hn H d Hd)
    as [i [H0 [H1 [Hv [Hv' ->]]]]].
  apply dt_date_valid in Hv, Hv'.
  unfold iso_window. cbn [fst snd]. unfold edge_day.
  apply isoformat_strict; try lia.
  unfold dt_date.
  replace (start + (i + 1) * chunk start end_ n_chunks)
    with (start + i * chunk start end_ n_chunks + chunk start end_ n_chunks) by lia.
  revert Hday. unfold US_PER_DAY.
  generalize (start + i * chunk start end_ n_chunks) (chunk start end_ n_chunks).
  intros a td Htd. Z.div_mod_to_equations. lia.
Qed.

(** The 13 chunks of the year 2019: 28 days each. *)
Lemma partition_no_empty_window_witness :
  exists slots,
    partition (mk_datetime 2019 1 1) (mk_datetime 2019 12 31) 13 = Ok slots
    /\ forall w, In w slots -> (fst w <? snd w)%string = true.
Proof.
  eexists. split; [vm_compute; reflexivity|].
  apply (partition_no_empty_window
           (mk_datetime 2019 1 1) (mk_datetime 2019 12 31) 13); by_evaluation.
Defined.

(** X12: an empty first window when a chunk lasts less than a day.  For a
    [start] at midnight and two chunks or more, a returned partition whose
    rounded chunk is shorter than one day has a first window that starts and
    ends on the day of [start]. *)
Theorem partition_first_window_empty
  (start end_ : datetime) (n_chunks : Z) (slots : list TimeWindow) :
  valid_datetime start -> valid_datetime end_ -> start < end_ -> 2 <= n_chunks ->
  start mod US_PER_DAY = 0 ->
  chunk start end_ n_chunks < US_PER_DAY ->
  partition start end_ n_chunks = Ok slots ->
  nth_error slots 0
  = Some (isoformat (dt_date start), isoformat (dt_date start)).
Proof.
  intros Hs He Hlt Hn Hmid Hshort H.
  assert (Hl : valid_datetime (last_edge start end_ n_chunks))
    by (eapply partition_ok_last_edge; eauto; lia).
  rewrite (forward_partition start end_ n_chunks) in H by (assumption || lia).
  injection H as <-. apply adjacent_nth_error.
  pose proof (divide_and_round_nonneg (end_ - start) n_chunks ltac:(lia) ltac:(lia))
    as Hpos.
  split.
  - rewrite (edges_nth start end_ n_chunks) by lia. unfold edge_day.
    now rewrite Z.mul_0_l, Z.add_0_r.
  - rewrite (edges_nth start end_ n_chunks) by lia. unfold edge_day, dt_date.
    do 2 f_equal. change (Z.of_nat 1) with 1. rewrite Z.mul_1_l.
    unfold chunk in Hshort. revert Hmid Hshort Hpos. unfold US_PER_DAY.
    generalize (divide_and_round (end_ - start) n_chunks). intros td.
    intros. Z.div_mod_to_equations. lia.
Qed.

(** One day in 3 chunks of 8 hours. *)
Lemma partition_first_window_empty_witness :
  exists slots,
    partition (mk_datetime 2022 9 1) (mk_datetime 2022 9 2) 3 = Ok slots
    /\ nth_error slots 0 = Some ("2022-09-01", "2022-09-01")%string.
Proof.
  eexists. split; [vm_compute; reflexivity|].
  apply (partition_first_window_empty
           (mk_datetime 2022 9 1) (mk_datetime 2022 9 2) 3); by_evaluation.
Defined.

(** X13: the first window starts at [start].  In a returned partition of
    two chunks or more the first window starts on the day of [start]. *)
Theorem partition_first_window
  (start end_ : datetime) (n_chunks : Z) (slots : list TimeWindow) :
  valid_datetime start -> valid_datetime end_ -> start < end_ -> 2 <= n_chunks ->
  partition start end_ n_chunks = Ok slots ->
  exists w, nth_error slots 0 = Some w /\ fst w = isoformat (dt_date start).
Proof.
  intros Hs He Hlt Hn H.
  assert (Hl : valid_datetime (last_edge start end_ n_chunks))
    by (eapply partition_ok_last_edge; eauto; lia).
  destruct (forward_first_window start end_ n_chunks Hs He ltac:(lia) Hl Hn)
    as [slots' [w [E [Hw Hf]]]].
  rewrite E in H. injection H as <-. eauto.
Qed.

(** The 13 chunks of the year 2019. *)
Lemma partition_first_window_witness :
  exists slots,
    partition (mk_datetime 2019 1 1) (mk_datetime 2019 12 31) 13 = Ok slots
    /\ exists w, nth_error slots 0 = Some w /\ fst w = "2019-01-01"%string.
Proof.
  eexists. split; [vm_compute; reflexivity|].
  apply (partition_first_window
           (mk_datetime 2019 1 1) (mk_datetime 2019 12 31) 13); by_evaluation.
Defined.

(** X14: the last window stops before [end].  In a returned partition of
    two chunks or more whose chunks are longer than a day (by [n_chunks]
    microseconds), there are [n_chunks - 1] windows and the last one ends on
    the day of [start + (n_chunks - 1) * tdelta], strictly before the day of
    [end]: the days up to [end] are in no window. *)
Theorem partition_last_window_before_end
  (start end_ : datetime) (n_chunks : Z) (slots : list TimeWindow) :
  valid_datetime start -> valid_datetime end_ -> start < end_ -> 2 <= n_chunks ->
  n_chunks * (US_PER_DAY + n_chunks) <= end_ - start ->
  partition start end_ n_chunks = Ok slots ->
  len slots = n_chunks - 1
  /\ exists w,
       nth_error slots (Z.to_nat (n_chunks - 2)) = Some w
       /\ snd w = isoformat (dt_date (last_edge start end_ n_chunks))
       /\ (snd w <? isoformat (dt_date end_))%string = true.
Proof.
  intros Hs He Hlt Hn Hspan H.
  assert (Hl : valid_datetime (last_edge start end_ n_chunks))
    by (eapply partition_ok_last_edge; eauto; lia).
  destruct (forward_last_window start end_ n_chunks Hs He ltac:(lia) Hl Hn)
    as [slots' [w [E [Hw [Hlen Hsnd]]]]].
  destruct (forward_last_window_short start end_ n_chunks Hs He Hlt ltac:(lia)
              Hl Hn Hspan)
    as [slots'' [w' [E' [Hw' [_ Hlt']]]]].
  rewrite E in H, E'. injection H as <-. injection E' as <-.
  split; [assumption|]. exists w. repeat split; try assumption.
  congruence.
Qed.

(** The 17 chunks of ice_monitoring.ipynb: the last window ends on
    2023-04-15. *)
Lemma partition_last_window_before_end_witness :
  exists slots,
    partition (mk_datetime 2022 9 1) (mk_datetime 2023 4 30) 17 = Ok slots
    /\ len slots = 16
    /\ exists w,
         nth_error slots 15 = Some w
         /\ snd w = "2023-04-15"%string
         /\ (snd w <? "2023-04-30")%string = true.
Proof.
  eexists. split; [vm_compute; reflexivity|].
  apply (partition_last_window_before_end
           (mk_datetime 2022 9 1) (mk_datetime 2023 4 30) 17); by_evaluation.
Defined.
